(** * pycytominer.normalize: a shallow embedding and its properties

    The development follows [pycytominer/normalize.py].  The pandas
    operations that [normalize] calls ([.loc], [.query], the [DataFrame]
    constructor and [.merge]) are written out over a row-major table; the
    collaborators that the module imports ([load_profiles],
    [infer_cp_features], [output], the four scaler classes and pandas'
    expression parser) are parameters of the development.  Calls to the
    scalers and to [output] are recorded in a call log, so that statements
    about what is fitted, what is transformed and what is written can be
    made about a run of [normalize]. *)

From Stdlib Require Import List String Ascii Bool Arith ZArith QArith Qabs Qminmax Lia.
Import ListNotations.

Local Open Scope string_scope.
Local Open Scope list_scope.

(** ** Exceptions and results *)

(** Python exceptions raised by [normalize] and by pandas, and the fault
    names that the specification gives to failures of the scaling models.
    A [KeyError] comes in two shapes: for a single label it names that
    label, for a list of labels it names every label of the list that is
    missing. *)
Inductive exn : Type :=
| AssertionError
| KeyError (label : string)
| KeyErrorLabels (missing : list string)
| AttributeError
| ValueError
| TypeError
| UnboundLocalError
| UndefinedVariableError (name : string)
| InvalidInput
| ShapeMismatch
| OtherError (msg : string).

Inductive result (A : Type) : Type :=
| Ok (a : A)
| Err (e : exn).

Arguments Ok {A} a.
Arguments Err {A} e.

Definition bindR {A B : Type} (r : result A) (k : A -> result B) : result B :=
  match r with
  | Ok a => k a
  | Err e => Err e
  end.

Notation "'try' x <- r 'in' k" := (bindR r (fun x => k))
  (at level 10, x name, r at level 100, k at level 200).

(** ** Tables *)

(** A cell of a table.  [NaN] stands for any non-finite float (NaN or an
    infinity); [Num] carries an exact rational. *)
Inductive cell : Type :=
| Num (q : Q)
| NaN
| Str (s : string).

(** A [DataFrame] in row-major form: each row carries its index label.
    Labels may repeat, as pandas allows. *)
Record DataFrame : Type := mkDataFrame {
  columns : list string;
  rows : list (Z * list cell)
}.

Definition index (df : DataFrame) : list Z := map fst (rows df).

(** A [Series]: one named column with the index of the frame it came from. *)
Record Series : Type := mkSeries {
  s_name : string;
  s_rows : list (Z * cell)
}.

(** What [df.loc[:, key]] may return. *)
Inductive pdobj : Type :=
| Frame (df : DataFrame)
| Ser (s : Series).

(** A column selector as Python passes it: a single string or a list. *)
Inductive colspec : Type :=
| ColStr (s : string)
| ColList (l : list string).

Definition colspec_is (lit : string) (c : colspec) : bool :=
  match c with
  | ColStr s => String.eqb s lit
  | ColList _ => false
  end.

(** *** [df.loc[:, key]] *)

(** Positions of the columns called [name], counted from [k]. *)
Fixpoint positions_from (k : nat) (name : string) (cols : list string) : list nat :=
  match cols with
  | [] => []
  | c :: cs =>
      if String.eqb c name then k :: positions_from (S k) name cs
      else positions_from (S k) name cs
  end.

Definition positions (name : string) (cols : list string) : list nat :=
  positions_from 0 name cols.

Definition take_cols (pos : list nat) (row : list cell) : list cell :=
  map (fun j => nth j row NaN) pos.

(** The labels of a list that name no column, in the order of the list. *)
Definition missing_labels (names : list string) (cols : list string) : list string :=
  filter (fun n => match positions n cols with [] => true | _ => false end) names.

(** Positions selected by a list of labels; when some label names no
    column, the [KeyError] names all the labels of the list that are
    missing. *)
Fixpoint locate (names : list string) (cols : list string) : result (list nat) :=
  match names with
  | [] => Ok []
  | n :: ns =>
      match positions n cols with
      | [] => Err (KeyErrorLabels (n :: missing_labels ns cols))
      | p => try ps <- locate ns cols in Ok (p ++ ps)
      end
  end.

Definition select_positions (pos : list nat) (df : DataFrame) : DataFrame :=
  {| columns := map (fun j => nth j (columns df) "") pos;
     rows := map (fun r => (fst r, take_cols pos (snd r))) (rows df) |}.

Definition loc (df : DataFrame) (key : colspec) : result pdobj :=
  match key with
  | ColList names =>
      try pos <- locate names (columns df) in Ok (Frame (select_positions pos df))
  | ColStr name =>
      match positions name (columns df) with
      | [] => Err (KeyError name)
      | [j] => Ok (Ser {| s_name := name;
                          s_rows := map (fun r => (fst r, nth j (snd r) NaN)) (rows df) |})
      | pos => Ok (Frame (select_positions pos df))
      end
  end.

(** *** [df.query(expr)] *)

Inductive cmpop : Type := Eq_ | Ne_ | Lt_ | Le_ | Gt_ | Ge_.

Inductive operand : Type :=
| Col (name : string)
| Lit (v : cell).

(** The boolean row expressions of pandas' query language that the
    embedding evaluates: comparisons of columns and literals, combined
    with [and], [or] and [not]. *)
Inductive expr : Type :=
| Cmp (op : cmpop) (a b : operand)
| And (e1 e2 : expr)
| Or (e1 e2 : expr)
| Not (e : expr).

Definition Qlt_bool (x y : Q) : bool := negb (Qle_bool y x).

Definition cmp_num (op : cmpop) (x y : Q) : bool :=
  match op with
  | Eq_ => Qeq_bool x y
  | Ne_ => negb (Qeq_bool x y)
  | Lt_ => Qlt_bool x y
  | Le_ => Qle_bool x y
  | Gt_ => Qlt_bool y x
  | Ge_ => Qle_bool y x
  end.

Definition cmp_str (op : cmpop) (x y : string) : bool :=
  match op with
  | Eq_ => String.eqb x y
  | Ne_ => negb (String.eqb x y)
  | Lt_ => String.ltb x y
  | Le_ => String.leb x y
  | Gt_ => String.ltb y x
  | Ge_ => String.leb y x
  end.

(** Comparison of two cells: numbers with numbers, strings with strings;
    a NaN compares unequal to everything; equality across kinds is false
    and an ordering across kinds is a [TypeError]. *)
Definition cmp_cells (op : cmpop) (a b : cell) : result bool :=
  match a, b with
  | Num x, Num y => Ok (cmp_num op x y)
  | Str x, Str y => Ok (cmp_str op x y)
  | NaN, _ | _, NaN => Ok (match op with Ne_ => true | _ => false end)
  | _, _ =>
      match op with
      | Eq_ => Ok false
      | Ne_ => Ok true
      | _ => Err TypeError
      end
  end.

(** Name resolution: a column name that the frame does not have is
    pandas' [UndefinedVariableError], whatever the rows are. *)
Definition resolve_operand (cols : list string) (o : operand) : result unit :=
  match o with
  | Lit _ => Ok tt
  | Col c =>
      match positions c cols with
      | [] => Err (UndefinedVariableError c)
      | _ => Ok tt
      end
  end.

Fixpoint resolve (cols : list string) (e : expr) : result unit :=
  match e with
  | Cmp _ a b => try _ <- resolve_operand cols a in resolve_operand cols b
  | And e1 e2 | Or e1 e2 => try _ <- resolve cols e1 in resolve cols e2
  | Not e1 => resolve cols e1
  end.

Definition eval_operand (cols : list string) (row : list cell) (o : operand) : cell :=
  match o with
  | Lit v => v
  | Col c =>
      match positions c cols with
      | [] => NaN
      | j :: _ => nth j row NaN
      end
  end.

Fixpoint eval_row (cols : list string) (e : expr) (row : list cell) : result bool :=
  match e with
  | Cmp op a b => cmp_cells op (eval_operand cols row a) (eval_operand cols row b)
  | And e1 e2 =>
      try b1 <- eval_row cols e1 row in
      try b2 <- eval_row cols e2 row in Ok (b1 && b2)
  | Or e1 e2 =>
      try b1 <- eval_row cols e1 row in
      try b2 <- eval_row cols e2 row in Ok (b1 || b2)
  | Not e1 => try b <- eval_row cols e1 row in Ok (negb b)
  end.

(** The rows for which the predicate holds, in their original order. *)
Fixpoint filter_rows (p : list cell -> result bool) (rs : list (Z * list cell))
  : result (list (Z * list cell)) :=
  match rs with
  | [] => Ok []
  | r :: rest =>
      try b <- p (snd r) in
      try rest' <- filter_rows p rest in
      Ok (if b then r :: rest' else rest')
  end.

Definition query_expr (df : DataFrame) (e : expr) : result DataFrame :=
  try _ <- resolve (columns df) e in
  try rs <- filter_rows (eval_row (columns df) e) (rows df) in
  Ok {| columns := columns df; rows := rs |}.

(** *** [pd.DataFrame(data, columns=..., index=...)] *)

(** The constructor checks the shape of [data] against the axes. *)
Definition shape_ok (data : list (list cell)) (ncols nrows : nat) : bool :=
  Nat.eqb (List.length data) nrows
  && forallb (fun r => Nat.eqb (List.length r) ncols) data.

Definition pd_DataFrame (data : list (list cell)) (cols : list string) (idx : list Z)
  : result DataFrame :=
  if shape_ok data (List.length cols) (List.length idx)
  then Ok {| columns := cols; rows := combine idx data |}
  else Err ValueError.

(** *** [left.merge(right, left_index=True, right_index=True)] *)

Definition suffix_overlap (suffix : string) (other : list string) (c : string) : string :=
  if existsb (String.eqb c) other then c ++ suffix else c.

(** Column labels of a merge: a label that occurs on both sides gets the
    suffix [_x] on the left and [_y] on the right. *)
Definition merge_columns (lc rc : list string) : list string :=
  map (suffix_overlap "_x" rc) lc ++ map (suffix_overlap "_y" lc) rc.

(** The right rows that carry the index label [i]. *)
Definition matching (i : Z) (rs : list (Z * list cell)) : list (Z * list cell) :=
  filter (fun r => Z.eqb (fst r) i) rs.

(** Inner join on the index: each left row is paired with every right
    row of the same label. *)
Definition join_rows (l r : list (Z * list cell)) : list (Z * list cell) :=
  flat_map (fun lr => map (fun rr => (fst lr, snd lr ++ snd rr)) (matching (fst lr) r)) l.

Definition merge (left right : DataFrame) : DataFrame :=
  {| columns := merge_columns (columns left) (columns right);
     rows := join_rows (rows left) (rows right) |}.

(** ** Collaborators *)

(** A scaler class.  [fit] returns the fitted scaler, of which the
    embedding keeps the fitted parameters; [transform] returns an array,
    whose shape [normalize] leaves to the [DataFrame] constructor to
    check.  Constructing a scaler is taken not to raise. *)
Record Scaler : Type := mkScaler {
  params : Type;
  fit : pdobj -> result params;
  transform : params -> pdobj -> result (list (list cell))
}.

(** The [profiles] argument: a table in memory or a file to load. *)
Inductive profiles_arg : Type :=
| InMemory (df : DataFrame)
| FilePath (path : string).

(** What [normalize.py] imports: [load_profiles], [infer_cp_features] and
    [output] from [pycytominer.cyto_utils], the scalers from sklearn and
    [pycytominer.operations], and the parser behind [DataFrame.query]. *)
Record Collaborators : Type := mkCollaborators {
  load_profiles : profiles_arg -> result DataFrame;
  infer_cp_features : DataFrame -> bool -> result (list string);
  output : DataFrame -> string -> option string -> option string -> result unit;
  parse_expr : string -> result expr;
  StandardScaler : Scaler;
  RobustScaler : Scaler;
  RobustMAD : Scaler;
  Spherize : bool -> string -> Scaler
}.

(** ** The call log *)

Inductive call : Type :=
| CallFit (X : pdobj)
| CallTransform (X : pdobj)
| CallOutput (df : DataFrame) (output_filename : string).

(** A computation that may raise and that appends to the log of calls. *)
Definition M (A : Type) : Type := list call -> result A * list call.

Definition ret {A : Type} (a : A) : M A := fun log => (Ok a, log).

Definition raise {A : Type} (e : exn) : M A := fun log => (Err e, log).

Definition bind {A B : Type} (m : M A) (k : A -> M B) : M B :=
  fun log =>
    match m log with
    | (Ok a, log') => k a log'
    | (Err e, log') => (Err e, log')
    end.

Definition lift {A : Type} (r : result A) : M A := fun log => (r, log).

Definition record (c : call) : M unit := fun log => (Ok tt, log ++ [c]).

Notation "x <- m ;; k" := (bind m (fun x => k))
  (at level 61, m at next level, right associativity).

Definition run {A : Type} (m : M A) : result A * list call := m [].

Definition call_fit (sc : Scaler) (X : pdobj) : M (params sc) :=
  _ <- record (CallFit X) ;; lift (fit sc X).

Definition call_transform (sc : Scaler) (p : params sc) (X : pdobj) : M (list (list cell)) :=
  _ <- record (CallTransform X) ;; lift (transform sc p X).

(** ** [normalize] *)

(** [str.lower] on the ASCII letters. *)
Definition lower_ascii (c : ascii) : ascii :=
  let n := nat_of_ascii c in
  if (65 <=? n)%nat && (n <=? 90)%nat then ascii_of_nat (n + 32) else c.

Fixpoint lower (s : string) : string :=
  match s with
  | EmptyString => EmptyString
  | String c s' => String (lower_ascii c) (lower s')
  end.

Definition avail_methods : list string :=
  ["standardize"; "robustize"; "mad_robustize"; "spherize"].

Section Normalize.

Variable env : Collaborators.

(** The [if]/[elif] chain that binds [scaler]; it has no [else], so for
    any other string the name stays unbound. *)
Definition select_scaler (method : string) (spherize_center : bool)
    (spherize_method : string) : option Scaler :=
  if String.eqb method "standardize" then Some (StandardScaler env)
  else if String.eqb method "robustize" then Some (RobustScaler env)
  else if String.eqb method "mad_robustize" then Some (RobustMAD env)
  else if String.eqb method "spherize"
       then Some (Spherize env spherize_center spherize_method)
  else None.

(** [profiles.query(samples)] *)
Definition query (df : DataFrame) (samples : string) : result DataFrame :=
  try e <- parse_expr env samples in query_expr df e.

(** [x if x != "infer" else infer_cp_features(...)] *)
Definition resolve_spec (profiles : DataFrame) (spec : colspec) (metadata : bool)
  : result colspec :=
  if colspec_is "infer" spec
  then try l <- infer_cp_features env profiles metadata in Ok (ColList l)
  else Ok spec.

(** The argument of [scaler.fit]. *)
Definition fit_input (profiles : DataFrame) (features : colspec) (feature_df : pdobj)
    (samples : string) : result pdobj :=
  if String.eqb samples "all" then Ok feature_df
  else try sub <- query profiles samples in loc sub features.

(** The value of a call is [Some] table, or [None] where the Python
    function falls off its end. *)
Definition normalize (profiles : profiles_arg) (features meta_features : colspec)
    (samples method output_file : string)
    (compression_options float_format : option string)
    (spherize_center : bool) (spherize_method : string) : M (option DataFrame) :=
  profiles <- lift (load_profiles env profiles) ;;
  let method := lower method in
  _ <- (if existsb (String.eqb method) avail_methods
        then ret tt else raise AssertionError) ;;
  let scaler := select_scaler method spherize_center spherize_method in
  features <- lift (resolve_spec profiles features false) ;;
  feature_df <- lift (loc profiles features) ;;
  meta_features <- lift (resolve_spec profiles meta_features true) ;;
  meta_df <- lift (loc profiles meta_features) ;;
  match scaler with
  | None => raise UnboundLocalError
  | Some scaler =>
      X <- lift (fit_input profiles features feature_df samples) ;;
      fitted_scaler <- call_fit scaler X ;;
      transformed <- call_transform scaler fitted_scaler feature_df ;;
      match feature_df with
      | Ser _ => raise AttributeError
      | Frame fdf =>
          feature_df <- lift (pd_DataFrame transformed (columns fdf) (index fdf)) ;;
          match meta_df with
          | Ser _ => raise AttributeError
          | Frame mdf =>
              let normalized := merge mdf feature_df in
              if negb (String.eqb output_file "none")
              then
                _ <- record (CallOutput normalized output_file) ;;
                _ <- lift (output env normalized output_file
                             compression_options float_format) ;;
                ret None
              else ret (Some normalized)
          end
      end
  end.

End Normalize.

(** ** Scaling models *)

Local Open Scope Q_scope.

Fixpoint mapR {A B : Type} (f : A -> result B) (l : list A) : result (list B) :=
  match l with
  | [] => Ok []
  | a :: l' => try b <- f a in try bs <- mapR f l' in Ok (b :: bs)
  end.

(** Feature cells are real numbers; anything else is rejected. *)
Definition num_of (c : cell) : result Q :=
  match c with
  | Num q => Ok q
  | _ => Err InvalidInput
  end.

Definition numeric_rows (df : DataFrame) : result (list (list Q)) :=
  mapR (fun r => mapR num_of (snd r)) (rows df).

Definition column (j : nat) (m : list (list Q)) : list Q :=
  map (fun r => nth j r 0) m.

Fixpoint insert_sorted (x : Q) (l : list Q) : list Q :=
  match l with
  | [] => [x]
  | y :: l' => if Qle_bool x y then x :: l else y :: insert_sorted x l'
  end.

Fixpoint sort (l : list Q) : list Q :=
  match l with
  | [] => []
  | x :: l' => insert_sorted x (sort l')
  end.

(** The median: the middle value of the sorted list, or the mean of the
    two middle values. *)
Definition median (l : list Q) : Q :=
  let s := sort l in
  let n := List.length s in
  if Nat.even n
  then (nth (n / 2 - 1) s 0 + nth (n / 2) s 0) / 2
  else nth (n / 2) s 0.

(** The quantile [k/4] with linear interpolation between order statistics. *)
Definition quartile (k : nat) (l : list Q) : Q :=
  let s := sort l in
  let h := (k * (List.length s - 1))%nat in
  let lo := (h / 4)%nat in
  let frac := Z.of_nat (h mod 4) # 4 in
  nth lo s 0 + frac * (nth (S lo) s (nth lo s 0) - nth lo s 0).

Definition mean (l : list Q) : Q :=
  fold_right Qplus 0 l / (Z.of_nat (List.length l) # 1).

Definition variance (l : list Q) : Q :=
  let mu := mean l in
  mean (map (fun x => (x - mu) * (x - mu)) l).

(** A square root to twelve decimal places, by the integer square root. *)
Definition Qsqrt (q : Q) : Q :=
  let scaled := (Qnum q * 10 ^ 24 / Z.pos (Qden q))%Z in
  Z.sqrt scaled # 10 ^ 12.

(** Per-column fit: one pair (centre, scale) for each feature column.
    Fitting on no rows is an [InvalidInput] fault. *)
Definition fit_columns (stat : list Q -> Q * Q) (X : pdobj) : result (list (Q * Q)) :=
  match X with
  | Ser _ => Err InvalidInput
  | Frame df =>
      try m <- numeric_rows df in
      match m with
      | [] => Err InvalidInput
      | _ => Ok (map (fun j => stat (column j m)) (seq 0 (List.length (columns df))))
      end
  end.

(** A quotient that is non-finite when the denominator is zero. *)
Definition scale_cell (p : Q * Q) (x : Q) : cell :=
  if Qeq_bool (snd p) 0 then NaN else Num ((x - fst p) / snd p).

(** Per-column transform; a table of another width than the fitted one is
    a [ShapeMismatch] fault. *)
Definition transform_columns (ps : list (Q * Q)) (X : pdobj) : result (list (list cell)) :=
  match X with
  | Ser _ => Err InvalidInput
  | Frame df =>
      if Nat.eqb (List.length (columns df)) (List.length ps)
      then try m <- numeric_rows df in
           Ok (map (fun r => map (fun px => scale_cell (fst px) (snd px)) (combine ps r)) m)
      else Err ShapeMismatch
  end.

Module SpecModels.

(** Modelled from the spec: the Standardize variant (sklearn's
    [StandardScaler] is imported, not defined, by these sources):
    [transform(x) = (x - mean) / sigma], non-finite when [sigma] is 0. *)
Definition Standardize : Scaler :=
  {| params := list (Q * Q);
     fit := fit_columns (fun c => (mean c, Qsqrt (variance c)));
     transform := transform_columns |}.

(** Modelled from the spec: the Robustize variant (sklearn's
    [RobustScaler]): [transform(x) = (x - median) / IQR] with
    [IQR = Q3 - Q1], non-finite when the IQR is 0. *)
Definition Robustize : Scaler :=
  {| params := list (Q * Q);
     fit := fit_columns (fun c => (median c, quartile 3 c - quartile 1 c));
     transform := transform_columns |}.

(** The normal-consistency constant 1.4826. *)
Definition mad_constant : Q := 7413 # 5000.

Definition mad_scaled (c : list Q) : Q :=
  mad_constant * median (map (fun x => Qabs (x - median c)) c).

(** Modelled from the spec: the MadRobustize variant ([RobustMAD] of
    [pycytominer.operations], which is not part of these sources):
    [mad_scaled = 1.4826 * median(|x - median(x)|)] and
    [transform(x) = (x - median) / max(mad_scaled, eps)]. *)
Definition MadRobustize (eps : Q) : Scaler :=
  {| params := list (Q * Q);
     fit := fit_columns (fun c => (median c, mad_scaled c));
     transform := fun ps => transform_columns (map (fun p => (fst p, Qmax (snd p) eps)) ps) |}.

(** The whitening variant ([Spherize] of [pycytominer.operations], not
    part of these sources) needs an eigendecomposition, which exact
    rationals do not have; this instance refuses to fit. *)
Definition Spherize_unavailable (center : bool) (method : string) : Scaler :=
  {| params := unit;
     fit := fun _ => Err (OtherError "spherize: no eigendecomposition over the rationals");
     transform := fun _ _ => Err (OtherError "spherize: not fitted") |}.

End SpecModels.

(** ** An instance of the collaborators, and the table of the test suite *)

Module Examples.

Local Open Scope string_scope.

(** Words of a string, separated by blanks. *)
Fixpoint words_aux (acc : string) (s : string) : list string :=
  match s with
  | EmptyString => match acc with EmptyString => [] | _ => [acc] end
  | String c s' =>
      if Ascii.eqb c " "%char
      then match acc with
           | EmptyString => words_aux EmptyString s'
           | _ => acc :: words_aux EmptyString s'
           end
      else words_aux (acc ++ String c EmptyString) s'
  end.

Definition words (s : string) : list string := words_aux EmptyString s.

Definition is_digit (c : ascii) : bool :=
  let n := nat_of_ascii c in (48 <=? n)%nat && (n <=? 57)%nat.

Fixpoint digits (acc : Z) (s : string) : option Z :=
  match s with
  | EmptyString => Some acc
  | String c s' =>
      if is_digit c
      then digits (acc * 10 + Z.of_nat (nat_of_ascii c - 48))%Z s'
      else None
  end.

(** The text between single quotes, when the word is a quoted literal. *)
Definition unquote (w : string) : option string :=
  match w with
  | String q rest =>
      if Ascii.eqb q "'"%char
      then match String.length rest with
           | O => None
           | S n => if String.eqb (substring n 1 rest) "'"
                    then Some (substring 0 n rest) else None
           end
      else None
  | EmptyString => None
  end.

Definition parse_operand (w : string) : operand :=
  match unquote w with
  | Some s => Lit (Str s)
  | None =>
      match w with
      | String c rest =>
          if Ascii.eqb c "-"%char
          then match digits 0 rest with
               | Some z => Lit (Num (inject_Z (- z)))
               | None => Col w
               end
          else match digits 0 w with
               | Some z => Lit (Num (inject_Z z))
               | None => Col w
               end
      | EmptyString => Col w
      end
  end.

Definition parse_cmpop (w : string) : option cmpop :=
  if String.eqb w "==" then Some Eq_
  else if String.eqb w "!=" then Some Ne_
  else if String.eqb w "<" then Some Lt_
  else if String.eqb w "<=" then Some Le_
  else if String.eqb w ">" then Some Gt_
  else if String.eqb w ">=" then Some Ge_
  else None.

(** A parser for the queries of the form [operand op operand], the form
    of the docstring's [Metadata_treatment == 'control']. *)
Definition parse_comparison (s : string) : result expr :=
  match words s with
  | [a; o; b] =>
      match parse_cmpop o with
      | Some op => Ok (Cmp op (parse_operand a) (parse_operand b))
      | None => Err (OtherError "query: unknown operator")
      end
  | _ => Err (OtherError "query: not a single comparison")
  end.

Definition is_cp_feature (c : string) : bool :=
  prefix "Cells_" c || prefix "Nuclei_" c || prefix "Cytoplasm_" c.

(** Modelled from the spec: [infer_cp_features] of [pycytominer.cyto_utils]
    is not part of these sources; the specification fixes its contract
    (an ordered list of existing column names, by naming convention) and
    the docstring of [normalize] names the compartments.  The features
    are the columns whose name starts with [Cells_], [Nuclei_] or
    [Cytoplasm_], the metadata columns those whose name starts with
    [Metadata_]; finding none is an [AssertionError]. *)
Definition infer_by_prefix (df : DataFrame) (metadata : bool) : result (list string) :=
  match filter (if metadata then prefix "Metadata_" else is_cp_feature) (columns df) with
  | [] => Err AssertionError
  | found => Ok found
  end.

(** Modelled from the spec: [load_profiles] of [pycytominer.cyto_utils]
    hands a table in memory through; files are outside the embedding. *)
Definition load_in_memory (p : profiles_arg) : result DataFrame :=
  match p with
  | InMemory df => Ok df
  | FilePath _ => Err (OtherError "load_profiles: no file system")
  end.

Definition env (eps : Q) : Collaborators :=
  {| load_profiles := load_in_memory;
     infer_cp_features := infer_by_prefix;
     output := fun _ _ _ _ => Ok tt;
     parse_expr := parse_comparison;
     StandardScaler := SpecModels.Standardize;
     RobustScaler := SpecModels.Robustize;
     RobustMAD := SpecModels.MadRobustize eps;
     Spherize := SpecModels.Spherize_unavailable |}.

Definition n (z : Z) : cell := Num (inject_Z z).

(** [data_df] of [tests/test_normalize.py]. *)
Definition data_df : DataFrame :=
  {| columns := ["Metadata_plate"; "Metadata_treatment"; "x"; "y"; "z"; "zz"];
     rows :=
       [ (0%Z, [Str "a"; Str "drug";    n 1; n 3; n 1;  n 14]);
         (1%Z, [Str "a"; Str "drug";    n 2; n 1; n 8;  n 46]);
         (2%Z, [Str "a"; Str "control"; n 8; n 7; n 2;  n 1]);
         (3%Z, [Str "a"; Str "control"; n 2; n 4; n 5;  n 6]);
         (4%Z, [Str "b"; Str "drug";    n 5; n 5; n 6;  n 30]);
         (5%Z, [Str "b"; Str "drug";    n 5; n 9; n 22; n 100]);
         (6%Z, [Str "b"; Str "control"; n 5; n 6; n 2;  n 2]);
         (7%Z, [Str "b"; Str "control"; n 1; n 1; n 2;  n 2]) ] |}.

(** Rounding to one decimal place, half away from zero. *)
Definition round1 (q : Q) : Z :=
  let t := (Qnum q * 20 / Z.pos (Qden q))%Z in ((t + 1) / 2)%Z.

Definition round_cell (c : cell) : cell :=
  match c with
  | Num q => Num (round1 q # 10)
  | c => c
  end.

Definition round_frame (df : DataFrame) : DataFrame :=
  {| columns := columns df;
     rows := map (fun r => (fst r, map round_cell (snd r))) (rows df) |}.

Definition eps6 : Q := 1 # 1000000.

Definition demo : Collaborators := env eps6.

Definition xyz : colspec := ColList ["x"; "y"; "z"; "zz"].

Definition infer : colspec := ColStr "infer".

(** A table in which two rows carry the same index label, as after a
    concatenation of two plates. *)
Definition dup_df : DataFrame :=
  {| columns := ["Metadata_plate"; "x"];
     rows := [ (0%Z, [Str "a"; n 1]); (0%Z, [Str "b"; n 3]) ] |}.

Definition dup_wells : DataFrame :=
  {| columns := ["Metadata_well"; "Metadata_plate"; "y"];
     rows := [ (7%Z, [Str "A01"; Str "p1"; n 2]);
               (7%Z, [Str "A02"; Str "p2"; n 6]);
               (8%Z, [Str "A03"; Str "p2"; n 4]) ] |}.

Definition control : string := "Metadata_treatment == 'control'".

(** The four control rows of [data_df]. *)
Definition control_rows : list (Z * list cell) :=
  filter (fun r => match nth 1 (snd r) NaN with
                   | Str s => String.eqb s "control"
                   | _ => false
                   end) (rows data_df).

Definition metadata_columns : colspec :=
  ColList ["Metadata_plate"; "Metadata_treatment"].

(** A fitting subset whose second column is constant, and a table to
    transform in which it is not. *)
Definition flat_subset : DataFrame :=
  {| columns := ["x"; "flat"];
     rows := [ (2%Z, [n 1; n 7]); (3%Z, [n 4; n 7]); (6%Z, [n 9; n 7]) ] |}.

Definition flat_table : DataFrame :=
  {| columns := ["x"; "flat"];
     rows := [ (0%Z, [n 1; n 7]); (1%Z, [n 2; n 9]); (2%Z, [n 5; n (-3)]) ] |}.

Definition flat_fitted : list (Q * Q) :=
  match fit (SpecModels.MadRobustize eps6) (Frame flat_subset) with
  | Ok ps => ps
  | Err _ => []
  end.

(** A table with Cell Painting column names. *)
Definition cp_df : DataFrame :=
  {| columns := ["Metadata_plate"; "Metadata_treatment"; "Cells_area"; "Nuclei_area"];
     rows :=
       [ (0%Z, [Str "a"; Str "drug";    n 1; n 3]);
         (1%Z, [Str "a"; Str "control"; n 8; n 7]);
         (2%Z, [Str "b"; Str "drug";    n 5; n 5]);
         (3%Z, [Str "b"; Str "control"; n 2; n 4]) ] |}.

(** A scaler that accepts a subset without rows: like pandas' [median],
    which answers NaN for a column without values instead of raising, its
    fit on no rows gives undefined parameters, and its transform with
    undefined parameters gives NaN in every cell.  On a subset with rows
    it is the MadRobustize variant. *)
Definition nan_on_no_rows (eps : Q) : Scaler :=
  {| params := option (list (Q * Q));
     fit := fun X =>
       match X with
       | Frame {| columns := _; rows := [] |} => Ok None
       | _ => try ps <- fit (SpecModels.MadRobustize eps) X in Ok (Some ps)
       end;
     transform := fun ps X =>
       match ps with
       | Some ps => transform (SpecModels.MadRobustize eps) ps X
       | None =>
           match X with
           | Frame df => Ok (map (fun r => map (fun _ => NaN) (snd r)) (rows df))
           | Ser _ => Err InvalidInput
           end
       end |}.

(** The collaborators of [demo] with that scaler for ["mad_robustize"]. *)
Definition lenient : Collaborators :=
  {| load_profiles := load_in_memory;
     infer_cp_features := infer_by_prefix;
     output := fun _ _ _ _ => Ok tt;
     parse_expr := parse_comparison;
     StandardScaler := SpecModels.Standardize;
     RobustScaler := SpecModels.Robustize;
     RobustMAD := nan_on_no_rows eps6;
     Spherize := SpecModels.Spherize_unavailable |}.

(** The table that a run returned, or the empty table. *)
Definition table_of (r : result (option DataFrame) * list call) : DataFrame :=
  match fst r with
  | Ok (Some df) => df
  | _ => {| columns := []; rows := [] |}
  end.


(** The feature columns [x], [y], [z], [zz] of a returned table, in
    tenths, after rounding to one decimal place. *)
Definition tenths (r : result (option DataFrame) * list call) : list (list Z) :=
  map (fun j => map (fun row => match nth j (snd row) NaN with
                                | Num q => Qnum q
                                | _ => 0%Z
                                end)
                    (rows (round_frame (table_of r))))
      [2; 3; 4; 5]%nat.


End Examples.


(** ** The two halves of [normalize]

    [normalized_table] is the body of [normalize] up to and including the
    merge; [hand_over] is its last statement.  [normalize_split] below
    shows that [normalize] is the first followed by the second. *)

Section Halves.

Variable env : Collaborators.

Definition hand_over (output_file : string) (compression_options float_format : option string)
    (normalized : DataFrame) : M (option DataFrame) :=
  if negb (String.eqb output_file "none")
  then
    _ <- record (CallOutput normalized output_file) ;;
    _ <- lift (output env normalized output_file compression_options float_format) ;;
    ret None
  else ret (Some normalized).

Definition normalized_table (profiles : profiles_arg) (features meta_features : colspec)
    (samples method : string) (spherize_center : bool) (spherize_method : string)
  : M DataFrame :=
  profiles <- lift (load_profiles env profiles) ;;
  _ <- (if existsb (String.eqb (lower method)) avail_methods
        then ret tt else raise AssertionError) ;;
  features <- lift (resolve_spec env profiles features false) ;;
  feature_df <- lift (loc profiles features) ;;
  meta_features <- lift (resolve_spec env profiles meta_features true) ;;
  meta_df <- lift (loc profiles meta_features) ;;
  match select_scaler env (lower method) spherize_center spherize_method with
  | None => raise UnboundLocalError
  | Some scaler =>
      X <- lift (fit_input env profiles features feature_df samples) ;;
      fitted_scaler <- call_fit scaler X ;;
      transformed <- call_transform scaler fitted_scaler feature_df ;;
      match feature_df with
      | Ser _ => raise AttributeError
      | Frame fdf =>
          feature_df <- lift (pd_DataFrame transformed (columns fdf) (index fdf)) ;;
          match meta_df with
          | Ser _ => raise AttributeError
          | Frame mdf => ret (merge mdf feature_df)
          end
      end
  end.

(** The rows that the sample-selection spec selects from a table: all of
    them for ["all"], otherwise those for which the predicate holds. *)
Definition selected_rows (df : DataFrame) (samples : string)
  : result (list (Z * list cell)) :=
  if String.eqb samples "all" then Ok (rows df)
  else
    try e <- parse_expr env samples in
    try _ <- resolve (columns df) e in
    filter_rows (eval_row (columns df) e) (rows df).

End Halves.

(** The feature values of a list of rows: the cells at the positions of
    the feature columns. *)
Definition feature_values (pos : list nat) (rs : list (Z * list cell))
  : list (Z * list cell) :=
  map (fun r => (fst r, take_cols pos (snd r))) rs.

Definition labels (pos : list nat) (cols : list string) : list string :=
  map (fun j => nth j cols "") pos.

Definition is_finite (c : cell) : bool :=
  match c with
  | Num _ => true
  | _ => false
  end.

Definition output_calls (log : list call) : list call :=
  filter (fun c => match c with CallOutput _ _ => true | _ => false end) log.

(** One row of an inner join: the cells of the left row followed by
    those of the right row. *)
Definition glue (lr : (Z * list cell) * (Z * list cell)) : Z * list cell :=
  (fst (fst lr), snd (fst lr) ++ snd (snd lr)).

(** Everything that has to go well for [normalized_table] to return. *)
Record success_path (env : Collaborators) (src : profiles_arg)
    (features meta : colspec) (samples method : string) (c : bool) (sm : string)
    (df : DataFrame) (sc : Scaler) (fs : colspec) (fdf : DataFrame)
    (ms : colspec) (mdf : DataFrame) (X : pdobj) (p : params sc)
    (t : list (list cell)) : Prop := {
  sp_load : load_profiles env src = Ok df;
  sp_scaler : select_scaler env (lower method) c sm = Some sc;
  sp_features : resolve_spec env df features false = Ok fs;
  sp_feature_df : loc df fs = Ok (Frame fdf);
  sp_meta : resolve_spec env df meta true = Ok ms;
  sp_meta_df : loc df ms = Ok (Frame mdf);
  sp_fit_input : fit_input env df fs (Frame fdf) samples = Ok X;
  sp_fit : fit sc X = Ok p;
  sp_transform : transform sc p (Frame fdf) = Ok t;
  sp_shape : shape_ok t (List.length (columns fdf)) (List.length (index fdf)) = true
}.


(** The table that a call returns or hands to [output]. *)
Definition produces (r : result (option DataFrame) * list call) (N : DataFrame) : Prop :=
  fst r = Ok (Some N) \/ exists f, In (CallOutput N f) (snd r).

(** The test that the comparison of column [c] with the number [v] makes
    on a row. *)
Definition feature_test (cols : list string) (c : string) (op : cmpop) (v : Q)
    (r : Z * list cell) : bool :=
  match eval_operand cols (snd r) (Col c) with
  | Num q => cmp_num op q v
  | _ => false
  end.

(** The collaborators with another parser behind [DataFrame.query]. *)
Definition with_parser (env : Collaborators) (p : string -> result expr) : Collaborators :=
  {| load_profiles := load_profiles env;
     infer_cp_features := infer_cp_features env;
     output := output env;
     parse_expr := p;
     StandardScaler := StandardScaler env;
     RobustScaler := RobustScaler env;
     RobustMAD := RobustMAD env;
     Spherize := Spherize env |}.

(** * Properties *)

(** ** Strings and method names *)

Lemma lower_ascii_idempotent (c : ascii) : lower_ascii (lower_ascii c) = lower_ascii c.
Proof. destruct c as [[] [] [] [] [] [] [] []]; reflexivity. Qed.

Lemma lower_idempotent (s : string) : lower (lower s) = lower s.
Proof.
  induction s as [|c s IH]; simpl; [reflexivity|].
  now rewrite lower_ascii_idempotent, IH.
Qed.

Lemma existsb_eqb_In (m : string) (l : list string) :
  existsb (String.eqb m) l = true <-> In m l.
Proof.
  rewrite existsb_exists. split.
  - intros [x [Hin Heq]]. apply String.eqb_eq in Heq. now subst.
  - intros Hin. exists m. split; [assumption | apply String.eqb_refl].
Qed.

Lemma existsb_eqb_not_In (m : string) (l : list string) :
  ~ In m l -> existsb (String.eqb m) l = false.
Proof.
  intros Hn. destruct (existsb (String.eqb m) l) eqn:E; [|reflexivity].
  apply existsb_eqb_In in E. contradiction.
Qed.

Lemma select_scaler_avail env m c sm :
  existsb (String.eqb m) avail_methods = true ->
  exists sc, select_scaler env m c sm = Some sc.
Proof.
  unfold select_scaler, avail_methods. simpl.
  destruct (String.eqb m "standardize"); [eauto|].
  destruct (String.eqb m "robustize"); [eauto|].
  destruct (String.eqb m "mad_robustize"); [eauto|].
  destruct (String.eqb m "spherize"); [eauto|].
  simpl. discriminate.
Qed.

Lemma select_scaler_some env m c sm sc :
  select_scaler env m c sm = Some sc ->
  existsb (String.eqb m) avail_methods = true.
Proof.
  unfold select_scaler, avail_methods. simpl.
  destruct (String.eqb m "standardize"); [reflexivity|].
  destruct (String.eqb m "robustize"); [reflexivity|].
  destruct (String.eqb m "mad_robustize"); [reflexivity|].
  destruct (String.eqb m "spherize"); [reflexivity|].
  discriminate.
Qed.

(** ** [normalize] is its two halves in sequence *)

Lemma normalize_split env src features meta samples method out co ff c sm log :
  normalize env src features meta samples method out co ff c sm log =
  bind (normalized_table env src features meta samples method c sm)
       (hand_over env out co ff) log.
Proof.
  unfold normalize, normalized_table, hand_over, bind, lift, ret, raise.
  destruct (load_profiles env src) as [df|e]; [|reflexivity].
  destruct (existsb (String.eqb (lower method)) avail_methods); [|reflexivity].
  destruct (resolve_spec env df features false) as [fs|e]; [|reflexivity].
  destruct (loc df fs) as [fobj|e]; [|reflexivity].
  destruct (resolve_spec env df meta true) as [ms|e]; [|reflexivity].
  destruct (loc df ms) as [mobj|e]; [|reflexivity].
  destruct (select_scaler env (lower method) c sm) as [sc|]; [|reflexivity].
  destruct (fit_input env df fs fobj samples) as [X|e]; [|reflexivity].
  unfold call_fit, call_transform, bind, lift, record.
  destruct (fit sc X) as [p|e]; [|reflexivity].
  destruct (transform sc p fobj) as [t|e]; [|reflexivity].
  destruct fobj as [fdf|s]; [|reflexivity].
  destruct (pd_DataFrame t (columns fdf) (index fdf)) as [nf|e]; [|reflexivity].
  destruct mobj as [mdf|s]; reflexivity.
Qed.

(** ** The successful run of the first half *)

Lemma normalized_table_success env src features meta samples method c sm
    df sc fs fdf ms mdf X p t log :
  success_path env src features meta samples method c sm df sc fs fdf ms mdf X p t ->
  normalized_table env src features meta samples method c sm log =
  (Ok (merge mdf {| columns := columns fdf; rows := combine (index fdf) t |}),
   log ++ [CallFit X; CallTransform (Frame fdf)]).
Proof.
  intros [Hload Hsc Hfs Hfdf Hms Hmdf HX Hfit Htr Hshape].
  unfold normalized_table, bind, lift, ret, raise.
  rewrite Hload, (select_scaler_some _ _ _ _ _ Hsc), Hfs, Hfdf, Hms, Hmdf, Hsc, HX.
  unfold call_fit, call_transform, bind, lift, record.
  rewrite Hfit, Htr. unfold pd_DataFrame. rewrite Hshape.
  now rewrite <- app_assoc.
Qed.

Lemma normalized_table_inv env src features meta samples method c sm log0 N log :
  normalized_table env src features meta samples method c sm log0 = (Ok N, log) ->
  exists df sc fs fdf ms mdf X p t,
    success_path env src features meta samples method c sm df sc fs fdf ms mdf X p t
    /\ N = merge mdf {| columns := columns fdf; rows := combine (index fdf) t |}
    /\ log = log0 ++ [CallFit X; CallTransform (Frame fdf)].
Proof.
  unfold normalized_table, bind, lift, ret, raise.
  destruct (load_profiles env src) as [df|e] eqn:Hload; [|discriminate].
  destruct (existsb (String.eqb (lower method)) avail_methods) eqn:Hav; [|discriminate].
  destruct (resolve_spec env df features false) as [fs|e] eqn:Hfs; [|discriminate].
  destruct (loc df fs) as [fobj|e] eqn:Hfdf; [|discriminate].
  destruct (resolve_spec env df meta true) as [ms|e] eqn:Hms; [|discriminate].
  destruct (loc df ms) as [mobj|e] eqn:Hmdf; [|discriminate].
  destruct (select_scaler env (lower method) c sm) as [sc|] eqn:Hsc; [|discriminate].
  destruct (fit_input env df fs fobj samples) as [X|e] eqn:HX; [|discriminate].
  unfold call_fit, call_transform, bind, lift, record.
  destruct (fit sc X) as [p|e] eqn:Hfit; [|discriminate].
  destruct (transform sc p fobj) as [t|e] eqn:Htr; [|discriminate].
  destruct fobj as [fdf|s]; [|discriminate].
  unfold pd_DataFrame.
  destruct (shape_ok t (List.length (columns fdf)) (List.length (index fdf))) eqn:Hshape;
    [|discriminate].
  destruct mobj as [mdf|s]; [|discriminate].
  intros H. inversion H; subst.
  exists df, sc, fs, fdf, ms, mdf, X, p, t.
  split; [constructor; assumption|]. split; [reflexivity|].
  now rewrite <- app_assoc.
Qed.

(** A failing first half writes nothing and returns nothing. *)
Lemma normalized_table_no_output env src features meta samples method c sm log0 r log :
  normalized_table env src features meta samples method c sm log0 = (r, log) ->
  output_calls log = output_calls log0.
Proof.
  unfold normalized_table, bind, lift, ret, raise.
  destruct (load_profiles env src) as [df|e]; [|now intros [= _ <-]].
  destruct (existsb (String.eqb (lower method)) avail_methods); [|now intros [= _ <-]].
  destruct (resolve_spec env df features false) as [fs|e]; [|now intros [= _ <-]].
  destruct (loc df fs) as [fobj|e]; [|now intros [= _ <-]].
  destruct (resolve_spec env df meta true) as [ms|e]; [|now intros [= _ <-]].
  destruct (loc df ms) as [mobj|e]; [|now intros [= _ <-]].
  destruct (select_scaler env (lower method) c sm) as [sc|]; [|now intros [= _ <-]].
  destruct (fit_input env df fs fobj samples) as [X|e]; [|now intros [= _ <-]].
  unfold call_fit, call_transform, bind, lift, record.
  assert (E1 : output_calls (log0 ++ [CallFit X]) = output_calls log0).
  { unfold output_calls. rewrite filter_app. simpl. apply app_nil_r. }
  destruct (fit sc X) as [p|e]; [|now intros [= _ <-]].
  assert (E2 : output_calls ((log0 ++ [CallFit X]) ++ [CallTransform fobj])
               = output_calls log0).
  { unfold output_calls in *. rewrite filter_app, E1. simpl. apply app_nil_r. }
  destruct (transform sc p fobj) as [t|e]; [|now intros [= _ <-]].
  destruct fobj as [fdf|s]; [|now intros [= _ <-]].
  destruct (pd_DataFrame t (columns fdf) (index fdf)) as [nf|e]; [|now intros [= _ <-]].
  destruct mobj as [mdf|s]; now intros [= _ <-].
Qed.

(** ** Column selection keeps the rows *)

Lemma index_select_positions pos df : index (select_positions pos df) = index df.
Proof.
  unfold index, select_positions. simpl. rewrite map_map. reflexivity.
Qed.

Lemma loc_frame df key f :
  loc df key = Ok (Frame f) -> exists pos, f = select_positions pos df.
Proof.
  destruct key as [s|l]; simpl.
  - destruct (positions s (columns df)) as [|j [|j' pos]]; try discriminate;
      intros [= <-]; eauto.
  - destruct (locate l (columns df)) as [pos|e]; simpl; [|discriminate].
    intros [= <-]; eauto.
Qed.

Lemma loc_list df l obj :
  loc df (ColList l) = Ok obj ->
  exists pos, locate l (columns df) = Ok pos /\ obj = Frame (select_positions pos df).
Proof.
  simpl. destruct (locate l (columns df)) as [pos|e]; simpl; [|discriminate].
  intros [= <-]. eauto.
Qed.

Lemma rows_select_positions pos df :
  rows (select_positions pos df) = feature_values pos (rows df).
Proof. reflexivity. Qed.

Lemma take_cols_length pos row : List.length (take_cols pos row) = List.length pos.
Proof. unfold take_cols. apply length_map. Qed.

(** ** The merge on distinct index labels *)

Lemma matching_absent i rs : ~ In i (map fst rs) -> matching i rs = [].
Proof.
  induction rs as [|r rs IH]; simpl; [reflexivity|].
  intros Hn. destruct (Z.eqb_spec (fst r) i) as [E|E].
  - exfalso. apply Hn. now left.
  - apply IH. intros Hin. apply Hn. now right.
Qed.

Lemma matching_unique rs rr :
  NoDup (map fst rs) -> In rr rs -> matching (fst rr) rs = [rr].
Proof.
  induction rs as [|r rs IH]; simpl; [contradiction|].
  intros Hnd [E|Hin]; inversion Hnd as [|k ks Hk Hnd']; subst.
  - rewrite Z.eqb_refl. now rewrite matching_absent.
  - destruct (Z.eqb_spec (fst r) (fst rr)) as [E|E].
    + exfalso. apply Hk. rewrite E. now apply in_map.
    + now apply IH.
Qed.

Lemma join_rows_along l r' r :
  map fst l = map fst r' ->
  (forall rr, In rr r' -> matching (fst rr) r = [rr]) ->
  join_rows l r = map glue (combine l r').
Proof.
  revert r'. induction l as [|x l IH]; intros [|y r'] Hk Hm; simpl in *;
    try reflexivity; try discriminate.
  injection Hk as Hxy Hk. rewrite Hxy, (Hm y (or_introl eq_refl)). simpl.
  unfold glue at 1. simpl. rewrite Hxy. f_equal.
  apply IH; [assumption|]. intros rr Hin. apply Hm. now right.
Qed.

Lemma join_rows_distinct l r :
  map fst l = map fst r -> NoDup (map fst r) ->
  join_rows l r = map glue (combine l r).
Proof.
  intros Hk Hnd. apply join_rows_along; [assumption|].
  intros rr Hin. now apply matching_unique.
Qed.

Lemma map_fst_glue l r :
  List.length l = List.length r -> map fst (map glue (combine l r)) = map fst l.
Proof.
  revert r. induction l as [|x l IH]; intros [|y r] Hlen; simpl in *;
    try reflexivity; try discriminate.
  f_equal. apply IH. now injection Hlen.
Qed.

Lemma map_fst_combine {A B : Type} (l : list A) (l' : list B) :
  List.length l = List.length l' -> map fst (combine l l') = l.
Proof.
  revert l'. induction l as [|x l IH]; intros [|y l'] Hlen; simpl in *;
    try reflexivity; try discriminate.
  f_equal. apply IH. now injection Hlen.
Qed.

Lemma shape_ok_length t nc nr : shape_ok t nc nr = true -> List.length t = nr.
Proof.
  unfold shape_ok. intros H. apply andb_true_iff in H as [H _].
  now apply Nat.eqb_eq.
Qed.

(** The rows of the merged table when the index labels are distinct: row
    by row, the metadata cells followed by the transformed cells. *)
Lemma merge_rows_distinct mpos fpos df t :
  NoDup (index df) ->
  List.length t = List.length (index df) ->
  rows (merge (select_positions mpos df)
              {| columns := columns (select_positions fpos df);
                 rows := combine (index (select_positions fpos df)) t |}) =
  map (fun rt => (fst (fst rt), take_cols mpos (snd (fst rt)) ++ snd rt))
      (combine (rows df) t).
Proof.
  intros Hnd Hlen. simpl. rewrite index_select_positions.
  assert (Hkeys : map fst (feature_values mpos (rows df)) =
                  map fst (combine (index df) t)).
  { rewrite map_fst_combine by (symmetry; assumption).
    unfold feature_values. rewrite map_map. reflexivity. }
  rewrite join_rows_distinct.
  - unfold index in *. clear Hkeys Hnd. revert t Hlen.
    induction (rows df) as [|r rs IH]; intros [|x t] Hlen; simpl in *;
      try reflexivity; try discriminate.
    f_equal. apply IH. rewrite length_map in *. now injection Hlen.
  - exact Hkeys.
  - rewrite map_fst_combine by (symmetry; assumption). exact Hnd.
Qed.

(** ** Method names *)

(** C5: the method name is compared after lower-casing, so a name in any
    casing runs as its lower-case form; and when the lower-cased name is
    not one of the four, the call fails with the assertion's error (the
    UnknownMethod fault) straight after loading, before any scaler is
    fitted or applied: the call log is empty. *)
Theorem unknown_method_fails_fast env src features meta samples method out co ff c sm :
  run (normalize env src features meta samples method out co ff c sm)
  = run (normalize env src features meta samples (lower method) out co ff c sm)
  /\ (~ In (lower method) avail_methods ->
      forall df, load_profiles env src = Ok df ->
      run (normalize env src features meta samples method out co ff c sm)
      = (Err AssertionError, [])).
Proof.
  split.
  - unfold run, normalize. now rewrite lower_idempotent.
  - intros Hn df Hload. unfold run, normalize, bind, lift, raise.
    now rewrite Hload, (existsb_eqb_not_In _ _ Hn).
Qed.

Lemma unknown_method_fails_fast_witness :
  run (normalize Examples.demo (InMemory Examples.data_df) Examples.xyz Examples.infer
         "all" "Normalise" "none" None None true "ZCA-cor")
  = (Err AssertionError, []).
Proof.
  apply (proj2 (unknown_method_fails_fast Examples.demo (InMemory Examples.data_df)
                  Examples.xyz Examples.infer "all" "Normalise" "none" None None
                  true "ZCA-cor")) with (df := Examples.data_df).
  - simpl. intuition discriminate.
  - reflexivity.
Defined.

(** A name in capitals is accepted as its lower-case form. *)
Example method_in_capitals :
  run (normalize Examples.demo (InMemory Examples.data_df) Examples.xyz Examples.infer
         "all" "ROBUSTIZE" "none" None None true "ZCA-cor")
  = run (normalize Examples.demo (InMemory Examples.data_df) Examples.xyz Examples.infer
           "all" "robustize" "none" None None true "ZCA-cor").
Proof. reflexivity. Qed.

(** ** What a call returns and what it writes *)

Lemma in_output_calls N f log :
  In (CallOutput N f) log -> In (CallOutput N f) (output_calls log).
Proof. intros H. unfold output_calls. apply filter_In. now split. Qed.

Lemma run_normalize_ok env src features meta samples method out co ff c sm N log :
  normalized_table env src features meta samples method c sm [] = (Ok N, log) ->
  run (normalize env src features meta samples method out co ff c sm)
  = if String.eqb out "none" then (Ok (Some N), log)
    else (try _ <- output env N out co ff in Ok None, log ++ [CallOutput N out]).
Proof.
  intros H. unfold run. rewrite normalize_split. unfold bind. rewrite H.
  unfold hand_over, bind, record, lift, ret.
  destruct (String.eqb out "none"); simpl; [reflexivity|].
  destruct (output env N out co ff); reflexivity.
Qed.

Lemma run_normalize_err env src features meta samples method out co ff c sm e log :
  normalized_table env src features meta samples method c sm [] = (Err e, log) ->
  run (normalize env src features meta samples method out co ff c sm) = (Err e, log).
Proof.
  intros H. unfold run. rewrite normalize_split. unfold bind. now rewrite H.
Qed.

(** A table that a call returns or writes is the merge of the metadata
    columns with the re-framed output of the transform. *)
Lemma produced_table env src features meta samples method out co ff c sm N :
  produces (run (normalize env src features meta samples method out co ff c sm)) N ->
  exists df sc fs fdf ms mdf X p t,
    success_path env src features meta samples method c sm df sc fs fdf ms mdf X p t
    /\ N = merge mdf {| columns := columns fdf; rows := combine (index fdf) t |}.
Proof.
  destruct (normalized_table env src features meta samples method c sm [])
    as [[N0|e] log] eqn:Hnt.
  - rewrite (run_normalize_ok _ _ _ _ _ _ out co ff _ _ _ _ Hnt).
    apply normalized_table_inv in Hnt
      as (df & sc & fs & fdf & ms & mdf & X & p & t & Hsp & HN0 & Hlog).
    intros Hprod.
    assert (HN : N = N0).
    { destruct (String.eqb out "none"); destruct Hprod as [Hr|[f Hin]]; simpl in *.
      - now injection Hr.
      - subst log. simpl in Hin. destruct Hin as [?|[?|[]]]; discriminate.
      - destruct (output env N0 out co ff); discriminate.
      - subst log. simpl in Hin. destruct Hin as [?|[?|[Hc|[]]]]; try discriminate.
        now injection Hc. }
    subst N. exists df, sc, fs, fdf, ms, mdf, X, p, t. now split.
  - rewrite (run_normalize_err _ _ _ _ _ _ out co ff _ _ _ _ Hnt).
    intros [Hr|[f Hin]]; simpl in *; [discriminate|].
    apply in_output_calls in Hin.
    rewrite (normalized_table_no_output _ _ _ _ _ _ _ _ _ _ _ Hnt) in Hin.
    contradiction.
Qed.

(** A destination is given and the call returns [None], not the table. *)
Lemma returns_none_with_destination :
  let r := run (normalize Examples.demo (InMemory Examples.data_df) Examples.xyz
                  Examples.infer "all" "robustize" "normalized.csv" None None
                  true "ZCA-cor") in
  fst r = Ok None /\ forall t, fst r <> Ok (Some t).
Proof.
  vm_compute. split; [reflexivity | discriminate].
Qed.

(** C8 (amended): a call returns the normalized table exactly when no
    destination is given; with a destination, no run returns a table: the
    table that would have been returned is handed to [output] and the
    call returns [None]. *)
Theorem returns_table_iff_no_destination env src features meta samples method out co ff c sm :
  let r := run (normalize env src features meta samples method out co ff c sm) in
  (out = "none" -> fst r <> Ok None /\ output_calls (snd r) = [])
  /\ (out <> "none" -> forall t, fst r <> Ok (Some t))
  /\ (out <> "none" -> forall N log,
        run (normalize env src features meta samples method "none" co ff c sm)
        = (Ok (Some N), log) ->
        r = (try _ <- output env N out co ff in Ok None, log ++ [CallOutput N out])).
Proof.
  destruct (normalized_table env src features meta samples method c sm [])
    as [[N0|e] log0] eqn:Hnt; cbv zeta.
  - rewrite (run_normalize_ok _ _ _ _ _ _ out co ff _ _ _ _ Hnt).
    rewrite (run_normalize_ok _ _ _ _ _ _ "none" co ff _ _ _ _ Hnt).
    pose proof (normalized_table_no_output _ _ _ _ _ _ _ _ _ _ _ Hnt) as Hno.
    split; [intros -> | split; [intros Hne t | intros Hne N log Hrun]].
    + simpl. split; [discriminate | exact Hno].
    + apply String.eqb_neq in Hne. rewrite Hne. simpl.
      destruct (output env N0 out co ff); discriminate.
    + apply String.eqb_neq in Hne. rewrite Hne. simpl in Hrun.
      injection Hrun as -> ->. reflexivity.
  - rewrite (run_normalize_err _ _ _ _ _ _ out co ff _ _ _ _ Hnt).
    rewrite (run_normalize_err _ _ _ _ _ _ "none" co ff _ _ _ _ Hnt).
    pose proof (normalized_table_no_output _ _ _ _ _ _ _ _ _ _ _ Hnt) as Hno.
    split; [intros -> | split; [intros Hne t | intros Hne N log Hrun]]; simpl.
    + split; [discriminate | exact Hno].
    + discriminate.
    + discriminate.
Qed.

Lemma returns_table_iff_no_destination_witness :
  let r0 := run (normalize Examples.demo (InMemory Examples.data_df) Examples.xyz
                   Examples.infer "all" "robustize" "none" None None true "ZCA-cor") in
  run (normalize Examples.demo (InMemory Examples.data_df) Examples.xyz
         Examples.infer "all" "robustize" "normalized.csv" None None true "ZCA-cor")
  = (Ok None, snd r0 ++ [CallOutput (Examples.table_of r0) "normalized.csv"]).
Proof.
  intros r0.
  apply (proj2 (proj2 (returns_table_iff_no_destination Examples.demo
           (InMemory Examples.data_df) Examples.xyz Examples.infer "all" "robustize"
           "normalized.csv" None None true "ZCA-cor"))).
  - discriminate.
  - vm_compute. reflexivity.
Defined.

(** ** Metadata given as ["none"] or as the empty list *)

Lemma positions_from_absent k name cols :
  ~ In name cols -> positions_from k name cols = [].
Proof.
  revert k. induction cols as [|c cs IH]; intros k Hn; simpl; [reflexivity|].
  destruct (String.eqb_spec c name) as [E|E].
  - exfalso. apply Hn. now left.
  - apply IH. intros Hin. apply Hn. now right.
Qed.

Lemma merge_columns_nil_l rc : merge_columns [] rc = rc.
Proof.
  unfold merge_columns. simpl. induction rc as [|c rc IH]; simpl; [reflexivity|].
  now rewrite IH.
Qed.

(** The string ["none"] is looked up as a column label. *)
Lemma none_is_looked_up_as_a_label :
  run (normalize Examples.demo (InMemory Examples.data_df) Examples.xyz (ColStr "none")
         "all" "standardize" "none" None None true "ZCA-cor")
  = (Err (KeyError "none"), []).
Proof. reflexivity. Qed.

Lemma join_rows_no_left_cells_distinct (rs : list (Z * list cell)) t :
  NoDup (map fst rs) ->
  List.length t = List.length rs ->
  join_rows (feature_values [] rs) (combine (map fst rs) t) = combine (map fst rs) t.
Proof.
  intros Hnd Hlen.
  rewrite join_rows_distinct.
  - clear Hnd. revert t Hlen.
    induction rs as [|r rs IH]; intros [|x t] Hlen; simpl in *;
      try reflexivity; try discriminate.
    unfold glue at 1. simpl. f_equal. apply IH. now injection Hlen.
  - rewrite map_fst_combine by (now rewrite length_map).
    unfold feature_values. rewrite map_map. reflexivity.
  - rewrite map_fst_combine by (now rewrite length_map). exact Hnd.
Qed.

(** C7 (amended): [meta_features] has the one sentinel ["infer"]; the
    string ["none"] is used as a column label, so on a table without a
    column of that name the call fails with a [KeyError] before anything is
    fitted.  The empty metadata set is the empty list: a table that such
    a call returns or writes has the feature columns and no other, and
    its rows are the rows of the array that the scaler selected by the
    method, fitted on the selected rows, returns for the feature columns
    of the table, each under its index label (one for one when the labels
    are distinct). *)
Theorem meta_none_is_a_label env src features samples method out co ff c sm :
  (forall df fs fobj,
      load_profiles env src = Ok df ->
      In (lower method) avail_methods ->
      resolve_spec env df features false = Ok fs ->
      loc df fs = Ok fobj ->
      ~ In "none" (columns df) ->
      run (normalize env src features (ColStr "none") samples method out co ff c sm)
      = (Err (KeyError "none"), []))
  /\ (forall N,
        produces (run (normalize env src features (ColList []) samples method
                         out co ff c sm)) N ->
        exists df fs fdf sc X (p : params sc) t,
          load_profiles env src = Ok df
          /\ resolve_spec env df features false = Ok fs
          /\ loc df fs = Ok (Frame fdf)
          /\ select_scaler env (lower method) c sm = Some sc
          /\ fit_input env df fs (Frame fdf) samples = Ok X
          /\ fit sc X = Ok p
          /\ transform sc p (Frame fdf) = Ok t
          /\ List.length t = List.length (rows df)
          /\ N = {| columns := columns fdf;
                    rows := join_rows (feature_values [] (rows df))
                                      (combine (index df) t) |}
          /\ (NoDup (index df) ->
              N = {| columns := columns fdf; rows := combine (index df) t |})).
Proof.
  split.
  - intros df fs fobj Hload Hav Hfs Hfobj Hnone.
    unfold run, normalize, bind, lift, ret, raise.
    rewrite Hload, (proj2 (existsb_eqb_In _ _) Hav), Hfs, Hfobj. simpl.
    unfold positions. now rewrite positions_from_absent.
  - intros N Hprod.
    apply produced_table in Hprod
      as (df & sc & fs & fdf & ms & mdf & X & p & t & Hsp & ->).
    destruct Hsp as [Hload Hsc Hfs Hfdf Hms Hmdf HX Hfit Htr Hshape].
    simpl in Hms. injection Hms as <-. simpl in Hmdf. injection Hmdf as <-.
    exists df, fs, fdf, sc, X, p, t. repeat (split; [assumption|]).
    destruct (loc_frame _ _ _ Hfdf) as [pos Hpos].
    apply shape_ok_length in Hshape.
    assert (Hidx : index fdf = index df)
      by (rewrite Hpos; apply index_select_positions).
    rewrite Hidx in *.
    assert (Hlen : List.length t = List.length (rows df))
      by (rewrite Hshape; unfold index; apply length_map).
    split; [exact Hlen|].
    assert (HN : merge (select_positions [] df)
                   {| columns := columns fdf; rows := combine (index df) t |}
                 = {| columns := columns fdf;
                      rows := join_rows (feature_values [] (rows df))
                                        (combine (index df) t) |}).
    { unfold merge. simpl. now rewrite merge_columns_nil_l. }
    split; [exact HN|].
    intros Hnd. rewrite HN. f_equal.
    now apply join_rows_no_left_cells_distinct.
Qed.

Lemma meta_none_is_a_label_witness :
  run (normalize Examples.demo (InMemory Examples.data_df) Examples.xyz (ColStr "none")
         "Metadata_treatment == 'control'" "robustize" "none" None None true "ZCA-cor")
  = (Err (KeyError "none"), [])
  /\ exists df fs fdf sc X (p : params sc) t,
       load_profiles Examples.demo (InMemory Examples.data_df) = Ok df
       /\ resolve_spec Examples.demo df Examples.xyz false = Ok fs
       /\ loc df fs = Ok (Frame fdf)
       /\ select_scaler Examples.demo (lower "robustize") true "ZCA-cor" = Some sc
       /\ fit_input Examples.demo df fs (Frame fdf) "Metadata_treatment == 'control'"
          = Ok X
       /\ fit sc X = Ok p
       /\ transform sc p (Frame fdf) = Ok t
       /\ List.length t = List.length (rows df)
       /\ Examples.table_of
            (run (normalize Examples.demo (InMemory Examples.data_df)
                    Examples.xyz (ColList [])
                    "Metadata_treatment == 'control'" "robustize" "none"
                    None None true "ZCA-cor"))
          = {| columns := columns fdf;
               rows := join_rows (feature_values [] (rows df))
                                 (combine (index df) t) |}
       /\ (NoDup (index df) ->
           Examples.table_of
             (run (normalize Examples.demo (InMemory Examples.data_df)
                     Examples.xyz (ColList [])
                     "Metadata_treatment == 'control'" "robustize" "none"
                     None None true "ZCA-cor"))
           = {| columns := columns fdf; rows := combine (index df) t |}).
Proof.
  split.
  - apply (proj1 (meta_none_is_a_label Examples.demo (InMemory Examples.data_df)
                    Examples.xyz "Metadata_treatment == 'control'" "robustize" "none"
                    None None true "ZCA-cor"))
      with (df := Examples.data_df) (fs := Examples.xyz)
           (fobj := Frame (select_positions [2; 3; 4; 5]%nat Examples.data_df)).
    + reflexivity.
    + simpl. auto.
    + reflexivity.
    + reflexivity.
    + simpl. intuition discriminate.
  - apply (proj2 (meta_none_is_a_label Examples.demo (InMemory Examples.data_df)
                    Examples.xyz "Metadata_treatment == 'control'" "robustize" "none"
                    None None true "ZCA-cor")).
    left. vm_compute. reflexivity.
Defined.

(** With the empty list the output of the test table has the four
    feature columns and no other. *)
Example empty_metadata_list :
  columns (Examples.table_of
             (run (normalize Examples.demo (InMemory Examples.data_df) Examples.xyz
                     (ColList []) "all" "robustize" "none" None None true "ZCA-cor")))
  = ["x"; "y"; "z"; "zz"].
Proof. vm_compute. reflexivity. Qed.

(** ** Rows and metadata of the output *)

Lemma firstn_length_app {A : Type} (l l' : list A) :
  firstn (List.length l) (l ++ l') = l.
Proof. induction l as [|x l IH]; simpl; [reflexivity | now rewrite IH]. Qed.

(** On distinct index labels the produced table is, row by row, the
    metadata cells of the input row followed by the transformed row. *)
Lemma produced_rows_distinct env src features meta samples method out co ff c sm df N :
  load_profiles env src = Ok df ->
  NoDup (index df) ->
  produces (run (normalize env src features meta samples method out co ff c sm)) N ->
  exists ms mpos t,
    resolve_spec env df meta true = Ok ms
    /\ loc df ms = Ok (Frame (select_positions mpos df))
    /\ List.length t = List.length (rows df)
    /\ rows N = map (fun rt => (fst (fst rt), take_cols mpos (snd (fst rt)) ++ snd rt))
                    (combine (rows df) t).
Proof.
  intros Hload Hnd Hprod.
  apply produced_table in Hprod
    as (df' & sc & fs & fdf & ms & mdf & X & p & t & Hsp & ->).
  destruct Hsp as [Hload' Hsc Hfs Hfdf Hms Hmdf HX Hfit Htr Hshape].
  rewrite Hload in Hload'. injection Hload' as <-.
  destruct (loc_frame _ _ _ Hfdf) as [fpos ->].
  destruct (loc_frame _ _ _ Hmdf) as [mpos ->].
  apply shape_ok_length in Hshape. rewrite index_select_positions in Hshape.
  exists ms, mpos, t. repeat (split; [assumption|]). split.
  - rewrite Hshape. unfold index. apply length_map.
  - now apply merge_rows_distinct.
Qed.

(** Two rows share an index label and the output has four rows for the
    two of the input. *)
Lemma duplicate_labels_duplicate_rows :
  let r := run (normalize Examples.demo (InMemory Examples.dup_df) (ColList ["x"])
                  (ColList ["Metadata_plate"]) "all" "robustize" "none" None None
                  true "ZCA-cor") in
  exists out, fst r = Ok (Some out)
              /\ index Examples.dup_df = [0; 0]%Z
              /\ index out = [0; 0; 0; 0]%Z.
Proof. vm_compute. eexists. repeat split. Qed.

(** C2 (amended): for every table whose index labels are pairwise
    distinct, every method and every selection spec, a table that
    [normalize] returns or writes has the index of the input table: the
    same labels in the same order, hence the same number of rows. *)
Theorem index_preserved_on_distinct_labels
    env src features meta samples method out co ff c sm df N :
  load_profiles env src = Ok df ->
  NoDup (index df) ->
  produces (run (normalize env src features meta samples method out co ff c sm)) N ->
  index N = index df /\ List.length (rows N) = List.length (rows df).
Proof.
  intros Hload Hnd Hprod.
  destruct (produced_rows_distinct _ _ _ _ _ _ _ _ _ _ _ _ _ Hload Hnd Hprod)
    as (ms & mpos & t & _ & _ & Hlen & Hrows).
  assert (Hidx : index N = index df).
  { unfold index. rewrite Hrows, map_map. simpl.
    rewrite <- (map_map fst fst), map_fst_combine by (symmetry; assumption).
    reflexivity. }
  split; [assumption|].
  unfold index in Hidx. apply (f_equal (@List.length Z)) in Hidx.
  now rewrite !length_map in Hidx.
Qed.

Lemma index_preserved_on_distinct_labels_witness :
  let N := Examples.table_of
             (run (normalize Examples.demo (InMemory Examples.data_df) Examples.xyz
                     Examples.infer "Metadata_treatment == 'control'" "standardize"
                     "none" None None true "ZCA-cor")) in
  index N = index Examples.data_df
  /\ List.length (rows N) = List.length (rows Examples.data_df).
Proof.
  intros N.
  apply (index_preserved_on_distinct_labels Examples.demo (InMemory Examples.data_df)
           Examples.xyz Examples.infer "Metadata_treatment == 'control'" "standardize"
           "none" None None true "ZCA-cor").
  - reflexivity.
  - simpl. repeat constructor; simpl; intuition discriminate.
  - left. vm_compute. reflexivity.
Defined.

(** Two wells share an index label and the metadata column of the output
    is not the column of the input. *)
Lemma duplicate_labels_repeat_metadata :
  let r := run (normalize Examples.demo (InMemory Examples.dup_wells) (ColList ["y"])
                  (ColList ["Metadata_well"; "Metadata_plate"]) "all" "mad_robustize"
                  "none" None None true "ZCA-cor") in
  exists out, fst r = Ok (Some out)
    /\ map (fun row => nth 0 (snd row) NaN) (rows Examples.dup_wells)
       = [Str "A01"; Str "A02"; Str "A03"]
    /\ map (fun row => nth 0 (snd row) NaN) (rows out)
       = [Str "A01"; Str "A01"; Str "A02"; Str "A02"; Str "A03"].
Proof. vm_compute. eexists. repeat split. Qed.

(** C3 (amended): for every table whose index labels are pairwise
    distinct and every method, the metadata columns of a table that
    [normalize] returns or writes are the columns that [meta_features]
    selects from the input, cell for cell and under the same labels. *)
Theorem metadata_unchanged_on_distinct_labels
    env src features meta samples method out co ff c sm df N :
  load_profiles env src = Ok df ->
  NoDup (index df) ->
  produces (run (normalize env src features meta samples method out co ff c sm)) N ->
  exists ms mdf,
    resolve_spec env df meta true = Ok ms
    /\ loc df ms = Ok (Frame mdf)
    /\ map (fun r => (fst r, firstn (List.length (columns mdf)) (snd r))) (rows N)
       = rows mdf.
Proof.
  intros Hload Hnd Hprod.
  destruct (produced_rows_distinct _ _ _ _ _ _ _ _ _ _ _ _ _ Hload Hnd Hprod)
    as (ms & mpos & t & Hms & Hmdf & Hlen & Hrows).
  exists ms, (select_positions mpos df). repeat (split; [assumption|]).
  rewrite Hrows, map_map. simpl. rewrite length_map.
  clear Hrows. revert t Hlen.
  induction (rows df) as [|r rs IH]; intros [|x t] Hlen; simpl in *;
    try reflexivity; try discriminate.
  rewrite <- (take_cols_length mpos (snd r)) at 1. rewrite firstn_length_app.
  f_equal. apply IH. now injection Hlen.
Qed.

Lemma metadata_unchanged_on_distinct_labels_witness :
  exists ms mdf,
    resolve_spec Examples.demo Examples.data_df Examples.infer true = Ok ms
    /\ loc Examples.data_df ms = Ok (Frame mdf)
    /\ map (fun r => (fst r, firstn (List.length (columns mdf)) (snd r)))
           (rows (Examples.table_of
                    (run (normalize Examples.demo (InMemory Examples.data_df)
                            Examples.xyz Examples.infer "all" "mad_robustize"
                            "none" None None true "ZCA-cor"))))
       = rows mdf.
Proof.
  apply (metadata_unchanged_on_distinct_labels Examples.demo (InMemory Examples.data_df)
           Examples.xyz Examples.infer "all" "mad_robustize"
           "none" None None true "ZCA-cor").
  - reflexivity.
  - simpl. repeat constructor; simpl; intuition discriminate.
  - left. vm_compute. reflexivity.
Defined.

(** ** What is fitted and what is transformed *)

Lemma loc_located df fs pos :
  locate fs (columns df) = Ok pos ->
  loc df (ColList fs) = Ok (Frame (select_positions pos df)).
Proof. intros H. simpl. now rewrite H. Qed.

(** The argument of [fit] is made of the feature values of the selected
    rows. *)
Lemma fit_input_selected env df fs pos samples sel :
  locate fs (columns df) = Ok pos ->
  selected_rows env df samples = Ok sel ->
  fit_input env df (ColList fs) (Frame (select_positions pos df)) samples
  = Ok (Frame {| columns := labels pos (columns df);
                 rows := feature_values pos sel |}).
Proof.
  intros Hloc. unfold fit_input, selected_rows, query, query_expr.
  destruct (String.eqb samples "all").
  - intros [= <-]. reflexivity.
  - destruct (parse_expr env samples) as [e|x]; simpl; [|discriminate].
    destruct (resolve (columns df) e) as [u|x]; simpl; [|discriminate].
    intros ->. simpl. now rewrite Hloc.
Qed.

(** C1: the scaler is fitted on the feature values of the rows that the
    selection spec selects, and of no other row; the fitted scaler is then
    applied to the feature values of every row of the table; and the
    table that the call returns or writes carries the output of that
    transform, one row for each row of the input. *)
Theorem fit_on_selected_transform_on_all
    env src features meta samples method out co ff c sm df sc fs pos ms mdf sel :
  load_profiles env src = Ok df ->
  select_scaler env (lower method) c sm = Some sc ->
  resolve_spec env df features false = Ok (ColList fs) ->
  locate fs (columns df) = Ok pos ->
  resolve_spec env df meta true = Ok ms ->
  loc df ms = Ok (Frame mdf) ->
  selected_rows env df samples = Ok sel ->
  let X_sel := Frame {| columns := labels pos (columns df);
                        rows := feature_values pos sel |} in
  let X_all := Frame {| columns := labels pos (columns df);
                        rows := feature_values pos (rows df) |} in
  let r := run (normalize env src features meta samples method out co ff c sm) in
  match fit sc X_sel with
  | Err e => r = (Err e, [CallFit X_sel])
  | Ok p =>
      match transform sc p X_all with
      | Err e => r = (Err e, [CallFit X_sel; CallTransform X_all])
      | Ok t =>
          if shape_ok t (List.length pos) (List.length (rows df))
          then
            let N := merge mdf {| columns := labels pos (columns df);
                                  rows := combine (index df) t |} in
            r = if String.eqb out "none"
                then (Ok (Some N), [CallFit X_sel; CallTransform X_all])
                else (try _ <- output env N out co ff in Ok None,
                      [CallFit X_sel; CallTransform X_all; CallOutput N out])
          else r = (Err ValueError, [CallFit X_sel; CallTransform X_all])
      end
  end.
Proof.
  intros Hload Hsc Hfs Hpos Hms Hmdf Hsel X_sel X_all r.
  subst r. unfold run, normalize, bind, lift, ret, raise.
  rewrite Hload, (select_scaler_some _ _ _ _ _ Hsc), Hfs, (loc_located _ _ _ Hpos),
    Hms, Hmdf, Hsc, (fit_input_selected _ _ _ _ _ _ Hpos Hsel).
  unfold call_fit, call_transform, bind, lift, record. simpl app.
  fold X_sel. change (Frame (select_positions pos df)) with X_all.
  destruct (fit sc X_sel) as [p|e]; [|reflexivity].
  destruct (transform sc p X_all) as [t|e]; [|reflexivity].
  unfold pd_DataFrame. rewrite index_select_positions.
  change (columns (select_positions pos df)) with (labels pos (columns df)).
  replace (List.length (labels pos (columns df))) with (List.length pos)
    by (unfold labels; now rewrite length_map).
  replace (List.length (index df)) with (List.length (rows df))
    by (unfold index; now rewrite length_map).
  destruct (shape_ok t (List.length pos) (List.length (rows df))); [|reflexivity].
  unfold record.
  destruct (String.eqb out "none"); simpl; [reflexivity|].
  destruct (output env _ out co ff); reflexivity.
Qed.

Lemma fit_on_selected_transform_on_all_witness :
  let X_sel := Frame {| columns := ["x"; "y"; "z"; "zz"];
                        rows := feature_values [2; 3; 4; 5]%nat Examples.control_rows |} in
  let X_all := Frame {| columns := ["x"; "y"; "z"; "zz"];
                        rows := feature_values [2; 3; 4; 5]%nat
                                  (rows Examples.data_df) |} in
  exists N,
    run (normalize Examples.demo (InMemory Examples.data_df) Examples.xyz Examples.infer
           Examples.control "robustize" "none" None None true "ZCA-cor")
    = (Ok (Some N), [CallFit X_sel; CallTransform X_all]).
Proof.
  intros X_sel X_all.
  pose proof (fit_on_selected_transform_on_all Examples.demo (InMemory Examples.data_df)
                Examples.xyz Examples.infer Examples.control "robustize" "none"
                None None true "ZCA-cor"
                Examples.data_df SpecModels.Robustize ["x"; "y"; "z"; "zz"]
                [2; 3; 4; 5]%nat Examples.metadata_columns
                (select_positions [0; 1]%nat Examples.data_df) Examples.control_rows
                eq_refl eq_refl eq_refl eq_refl eq_refl eq_refl eq_refl) as H.
  vm_compute in H. vm_compute. eexists. exact H.
Defined.

(** ** A predicate that holds of every row *)

Lemma filter_rows_all_true p rs :
  (forall r, In r rs -> p (snd r) = Ok true) -> filter_rows p rs = Ok rs.
Proof.
  induction rs as [|r rs IH]; intros Hall; simpl; [reflexivity|].
  rewrite (Hall r (or_introl eq_refl)). simpl.
  rewrite IH; [reflexivity|]. intros r' Hin. apply Hall. now right.
Qed.

Lemma query_all_true env df samples e :
  parse_expr env samples = Ok e ->
  resolve (columns df) e = Ok tt ->
  (forall r, In r (rows df) -> eval_row (columns df) e (snd r) = Ok true) ->
  query env df samples = Ok df.
Proof.
  intros Hparse Hres Hall. unfold query, query_expr.
  rewrite Hparse. simpl. rewrite Hres. simpl.
  rewrite (filter_rows_all_true _ _ Hall). simpl. now destruct df.
Qed.

Lemma fit_input_all_true env df fs fobj samples e :
  loc df fs = Ok fobj ->
  parse_expr env samples = Ok e ->
  resolve (columns df) e = Ok tt ->
  (forall r, In r (rows df) -> eval_row (columns df) e (snd r) = Ok true) ->
  fit_input env df fs fobj samples = fit_input env df fs fobj "all".
Proof.
  intros Hloc Hparse Hres Hall. unfold fit_input.
  destruct (String.eqb samples "all"); [reflexivity|].
  rewrite (query_all_true _ _ _ _ Hparse Hres Hall). simpl. exact Hloc.
Qed.

(** C4: when the predicate string holds of every row of the loaded
    table, the scaler is fitted on the same input as with ["all"], so the
    fitted parameters are the same, and the two calls run alike: the same
    calls in the same order and the same result. *)
Theorem always_true_predicate_is_all
    env src features meta samples method out co ff c sm :
  (forall df, load_profiles env src = Ok df ->
     exists e, parse_expr env samples = Ok e
               /\ resolve (columns df) e = Ok tt
               /\ forall r, In r (rows df) -> eval_row (columns df) e (snd r) = Ok true) ->
  (forall df fs fobj sc,
     load_profiles env src = Ok df -> loc df fs = Ok fobj ->
     bindR (fit_input env df fs fobj samples) (fit sc)
     = bindR (fit_input env df fs fobj "all") (fit sc))
  /\ run (normalize env src features meta samples method out co ff c sm)
     = run (normalize env src features meta "all" method out co ff c sm).
Proof.
  intros Htrue. split.
  - intros df fs fobj sc Hload Hloc.
    destruct (Htrue df Hload) as (e & Hparse & Hres & Hall).
    now rewrite (fit_input_all_true _ _ _ _ _ _ Hloc Hparse Hres Hall).
  - unfold run, normalize, bind, lift, ret, raise.
    destruct (load_profiles env src) as [df|x] eqn:Hload; [|reflexivity].
    destruct (Htrue df eq_refl) as (e & Hparse & Hres & Hall).
    destruct (existsb (String.eqb (lower method)) avail_methods); [|reflexivity].
    destruct (resolve_spec env df features false) as [fs|x]; [|reflexivity].
    destruct (loc df fs) as [fobj|x] eqn:Hloc; [|reflexivity].
    destruct (resolve_spec env df meta true) as [ms|x]; [|reflexivity].
    destruct (loc df ms) as [mobj|x]; [|reflexivity].
    destruct (select_scaler env (lower method) c sm) as [sc|]; [|reflexivity].
    now rewrite (fit_input_all_true _ _ _ _ _ _ Hloc Hparse Hres Hall).
Qed.

Lemma always_true_predicate_is_all_witness :
  run (normalize Examples.demo (InMemory Examples.data_df) Examples.xyz Examples.infer
         "zz >= 1" "mad_robustize" "none" None None true "ZCA-cor")
  = run (normalize Examples.demo (InMemory Examples.data_df) Examples.xyz Examples.infer
           "all" "mad_robustize" "none" None None true "ZCA-cor").
Proof.
  refine (proj2 (always_true_predicate_is_all Examples.demo (InMemory Examples.data_df)
                   Examples.xyz Examples.infer "zz >= 1" "mad_robustize" "none"
                   None None true "ZCA-cor" _)).
  intros df Hload. simpl in Hload. injection Hload as <-.
  exists (Cmp Ge_ (Col "zz") (Lit (Num 1))).
  split; [reflexivity|]. split; [reflexivity|].
  intros r Hin. simpl in Hin.
  repeat (destruct Hin as [<-|Hin]; [reflexivity|]). destruct Hin.
Defined.

(** ** The query is evaluated on the whole table *)

Lemma positions_present name cols : In name cols -> positions name cols <> [].
Proof.
  unfold positions. generalize 0%nat.
  induction cols as [|c cs IH]; intros k Hin; simpl; [contradiction|].
  destruct (String.eqb_spec c name) as [E|E]; [discriminate|].
  destruct Hin as [Hc|Hin]; [contradiction|]. now apply IH.
Qed.

Lemma located_present fs cols pos name :
  locate fs cols = Ok pos -> In name fs -> positions name cols <> [].
Proof.
  revert pos. induction fs as [|f fs IH]; intros pos Hloc Hin; [contradiction|].
  simpl in Hloc. destruct (positions f cols) as [|j p] eqn:Hp; [discriminate|].
  destruct (locate fs cols) as [ps|e]; [|discriminate].
  destruct Hin as [<-|Hin]; [now rewrite Hp | now apply (IH ps)].
Qed.

Lemma positions_absent name cols : ~ In name cols -> positions name cols = [].
Proof. apply positions_from_absent. Qed.

Lemma filter_rows_feature_test cols col op v rs :
  (forall r, In r rs -> exists q, eval_operand cols (snd r) (Col col) = Num q) ->
  filter_rows (eval_row cols (Cmp op (Col col) (Lit (Num v)))) rs
  = Ok (filter (feature_test cols col op v) rs).
Proof.
  induction rs as [|r rs IH]; intros Hnum; [reflexivity|].
  cbn [filter_rows filter].
  rewrite IH by (intros r' Hin; apply Hnum; now right).
  unfold feature_test. cbn [eval_row].
  destruct (Hnum r (or_introl eq_refl)) as [q Hq]. rewrite Hq.
  cbn [eval_operand cmp_cells bindR]. now destruct (cmp_num op q v).
Qed.

(** Once the columns are located and the rows selected, the first call
    of a run is the fit on the feature values of the selected rows. *)
Lemma fit_is_first_call
    env src features meta samples method out co ff c sm df sc fs pos ms mobj sel :
  load_profiles env src = Ok df ->
  select_scaler env (lower method) c sm = Some sc ->
  resolve_spec env df features false = Ok (ColList fs) ->
  locate fs (columns df) = Ok pos ->
  resolve_spec env df meta true = Ok ms ->
  loc df ms = Ok mobj ->
  selected_rows env df samples = Ok sel ->
  exists rest,
    snd (run (normalize env src features meta samples method out co ff c sm))
    = CallFit (Frame {| columns := labels pos (columns df);
                        rows := feature_values pos sel |}) :: rest.
Proof.
  intros Hload Hsc Hfs Hpos Hms Hmobj Hsel.
  unfold run, normalize, bind, lift, ret, raise.
  rewrite Hload, (select_scaler_some _ _ _ _ _ Hsc), Hfs, (loc_located _ _ _ Hpos),
    Hms, Hmobj, Hsc, (fit_input_selected _ _ _ _ _ _ Hpos Hsel).
  unfold call_fit, call_transform, bind, lift, record. simpl app.
  destruct (fit sc _) as [p|e]; [|eexists; reflexivity].
  destruct (transform sc p _) as [t|e]; [|eexists; reflexivity].
  destruct (pd_DataFrame t _ _) as [nf|e]; [|eexists; reflexivity].
  destruct mobj as [mdf|s]; [|eexists; reflexivity].
  unfold record.
  destruct (negb (String.eqb out "none")); [|eexists; reflexivity].
  destruct (output env _ out co ff); eexists; reflexivity.
Qed.

(** C10: for every [samples] string other than ["all"], the parsed
    predicate is evaluated on the loaded table with all of its columns,
    and the scaler is fitted on the feature values of the rows that this
    evaluation keeps.  A comparison of a feature column with a number
    therefore resolves and keeps the rows by the values of that feature,
    whereas on a frame that lacks the column (such as the metadata
    columns alone) the same predicate would not resolve. *)
Theorem query_sees_feature_columns
    env src features meta samples method out co ff c sm df sc fs pos ms mobj e :
  load_profiles env src = Ok df ->
  select_scaler env (lower method) c sm = Some sc ->
  resolve_spec env df features false = Ok (ColList fs) ->
  locate fs (columns df) = Ok pos ->
  resolve_spec env df meta true = Ok ms ->
  loc df ms = Ok mobj ->
  samples <> "all" ->
  parse_expr env samples = Ok e ->
  (forall sub,
     query_expr df e = Ok sub ->
     exists rest,
       snd (run (normalize env src features meta samples method out co ff c sm))
       = CallFit (Frame {| columns := labels pos (columns df);
                           rows := feature_values pos (rows sub) |}) :: rest)
  /\ (forall col op v,
        e = Cmp op (Col col) (Lit (Num v)) ->
        In col fs ->
        (forall r, In r (rows df) ->
           exists q, eval_operand (columns df) (snd r) (Col col) = Num q) ->
        query_expr df e
        = Ok {| columns := columns df;
                rows := filter (feature_test (columns df) col op v) (rows df) |}
        /\ forall other, ~ In col (columns other) ->
             query_expr other e = Err (UndefinedVariableError col)).
Proof.
  intros Hload Hsc Hfs Hpos Hms Hmobj Hne Hparse. split.
  - intros sub Hsub.
    apply (fit_is_first_call _ _ _ _ _ _ _ _ _ _ _ df sc fs pos ms mobj);
      try assumption.
    unfold selected_rows. apply String.eqb_neq in Hne. rewrite Hne, Hparse.
    cbn [bindR]. unfold query_expr in Hsub.
    destruct (resolve (columns df) e) as [u|x]; [|discriminate].
    cbn [bindR] in *.
    destruct (filter_rows (eval_row (columns df) e) (rows df)) as [rs|x];
      [|discriminate].
    cbn [bindR] in Hsub. now injection Hsub as <-.
  - intros col op v -> Hcol Hnum. split.
    + unfold query_expr.
      assert (Hres : resolve (columns df) (Cmp op (Col col) (Lit (Num v))) = Ok tt).
      { simpl. pose proof (located_present _ _ _ _ Hpos Hcol) as Hp.
        now destruct (positions col (columns df)). }
      rewrite Hres. cbn [bindR].
      now rewrite (filter_rows_feature_test _ _ _ _ _ Hnum).
    + intros other Hno. unfold query_expr. simpl.
      now rewrite (positions_absent _ _ Hno).
Qed.

Lemma query_sees_feature_columns_witness :
  (exists rest,
     snd (run (normalize Examples.demo (InMemory Examples.data_df) Examples.xyz
                 Examples.infer "x > 2" "robustize" "none" None None true "ZCA-cor"))
     = CallFit (Frame {| columns := ["x"; "y"; "z"; "zz"];
                         rows := feature_values [2; 3; 4; 5]%nat
                                   (filter (feature_test (columns Examples.data_df)
                                              "x" Gt_ (inject_Z 2))
                                           (rows Examples.data_df)) |}) :: rest)
  /\ query_expr (select_positions [0; 1]%nat Examples.data_df)
       (Cmp Gt_ (Col "x") (Lit (Num (inject_Z 2))))
     = Err (UndefinedVariableError "x").
Proof.
  assert (Hnum : forall r, In r (rows Examples.data_df) ->
            exists q, eval_operand (columns Examples.data_df) (snd r) (Col "x") = Num q).
  { intros r Hin. simpl in Hin.
    repeat (destruct Hin as [<-|Hin]; [eexists; reflexivity|]). destruct Hin. }
  pose proof (query_sees_feature_columns Examples.demo (InMemory Examples.data_df)
                Examples.xyz Examples.infer "x > 2" "robustize" "none" None None
                true "ZCA-cor" Examples.data_df SpecModels.Robustize
                ["x"; "y"; "z"; "zz"] [2; 3; 4; 5]%nat Examples.metadata_columns
                (Frame (select_positions [0; 1]%nat Examples.data_df))
                (Cmp Gt_ (Col "x") (Lit (Num (inject_Z 2))))
                eq_refl eq_refl eq_refl eq_refl eq_refl eq_refl
                ltac:(discriminate) eq_refl) as [Hfit Hcmp].
  destruct (Hcmp "x"%string Gt_ (inject_Z 2) eq_refl (or_introl eq_refl) Hnum)
    as [Hq Hother].
  split.
  - exact (Hfit _ Hq).
  - apply Hother. simpl. intuition discriminate.
Defined.

(** The rows of the test table with [x > 2] are those labelled 2, 4, 5
    and 6, and the scaler is fitted on their feature values. *)
Example fitted_on_rows_with_large_x :
  hd_error (snd (run (normalize Examples.demo (InMemory Examples.data_df) Examples.xyz
                        Examples.infer "x > 2" "robustize" "none" None None
                        true "ZCA-cor")))
  = Some (CallFit (Frame {| columns := ["x"; "y"; "z"; "zz"];
                            rows := [ (2%Z, [Examples.n 8; Examples.n 7; Examples.n 2; Examples.n 1]);
                                      (4%Z, [Examples.n 5; Examples.n 5; Examples.n 6; Examples.n 30]);
                                      (5%Z, [Examples.n 5; Examples.n 9; Examples.n 22; Examples.n 100]);
                                      (6%Z, [Examples.n 5; Examples.n 6; Examples.n 2; Examples.n 2]) ] |})).
Proof. vm_compute. reflexivity. Qed.

(** ** Fitting on no rows *)

Lemma fit_columns_no_rows stat cols :
  fit_columns stat (Frame {| columns := cols; rows := [] |}) = Err InvalidInput.
Proof. reflexivity. Qed.

(** Nothing is selected, the scaler accepts the empty subset, and the
    call returns a table of the eight rows instead of failing. *)
Lemma empty_selection_can_return_a_table :
  let r := run (normalize Examples.lenient (InMemory Examples.data_df) Examples.xyz
                  Examples.metadata_columns "Metadata_treatment == 'blank'"
                  "mad_robustize" "none" None None true "ZCA-cor") in
  selected_rows Examples.lenient Examples.data_df "Metadata_treatment == 'blank'" = Ok []
  /\ exists out, fst r = Ok (Some out)
                 /\ List.length (rows out) = 8%nat
                 /\ fst r <> Err InvalidInput.
Proof.
  vm_compute. split; [reflexivity|]. eexists. repeat split. discriminate.
Qed.

(** C6 (amended): [normalize] has no check of its own for a selection
    without rows: the feature columns of the empty selection go to the
    scaler's [fit].  When that [fit] raises, the call fails with the same
    fault straight after the one call to [fit], and nothing is
    transformed, returned or written; a call fails in this way with
    InvalidInput exactly when the [fit] on no rows does.  When the [fit]
    accepts the empty subset, the call goes on and applies the fitted
    scaler to every row. *)
Theorem empty_selection_is_left_to_the_scaler
    env src features meta samples method out co ff c sm df sc fs pos ms mobj :
  load_profiles env src = Ok df ->
  select_scaler env (lower method) c sm = Some sc ->
  resolve_spec env df features false = Ok (ColList fs) ->
  locate fs (columns df) = Ok pos ->
  resolve_spec env df meta true = Ok ms ->
  loc df ms = Ok mobj ->
  selected_rows env df samples = Ok [] ->
  let X_none := Frame {| columns := labels pos (columns df); rows := [] |} in
  let X_all := Frame {| columns := labels pos (columns df);
                        rows := feature_values pos (rows df) |} in
  let r := run (normalize env src features meta samples method out co ff c sm) in
  (forall e, fit sc X_none = Err e -> r = (Err e, [CallFit X_none]))
  /\ (r = (Err InvalidInput, [CallFit X_none]) <-> fit sc X_none = Err InvalidInput)
  /\ (forall p, fit sc X_none = Ok p ->
        exists rest, snd r = CallFit X_none :: CallTransform X_all :: rest).
Proof.
  intros Hload Hsc Hfs Hpos Hms Hmobj Hsel X_none X_all r.
  assert (Hfail : forall e, fit sc X_none = Err e -> r = (Err e, [CallFit X_none])).
  { intros e He. subst r. unfold run, normalize, bind, lift, ret, raise.
    rewrite Hload, (select_scaler_some _ _ _ _ _ Hsc), Hfs, (loc_located _ _ _ Hpos),
      Hms, Hmobj, Hsc, (fit_input_selected _ _ _ _ _ _ Hpos Hsel).
    unfold call_fit, bind, lift, record. simpl app.
    change (Frame {| columns := labels pos (columns df);
                     rows := feature_values pos [] |}) with X_none.
    now rewrite He. }
  assert (Hgo : forall p, fit sc X_none = Ok p ->
            exists rest, snd r = CallFit X_none :: CallTransform X_all :: rest).
  { intros p Hp. subst r. unfold run, normalize, bind, lift, ret, raise.
    rewrite Hload, (select_scaler_some _ _ _ _ _ Hsc), Hfs, (loc_located _ _ _ Hpos),
      Hms, Hmobj, Hsc, (fit_input_selected _ _ _ _ _ _ Hpos Hsel).
    unfold call_fit, call_transform, bind, lift, record. simpl app.
    change (Frame {| columns := labels pos (columns df);
                     rows := feature_values pos [] |}) with X_none.
    change (Frame (select_positions pos df)) with X_all.
    rewrite Hp.
    destruct (transform sc p X_all) as [t|e]; [|eexists; reflexivity].
    destruct (pd_DataFrame t _ _) as [nf|e]; [|eexists; reflexivity].
    destruct mobj as [mdf|s]; [|eexists; reflexivity].
    unfold record.
    destruct (negb (String.eqb out "none")); [|eexists; reflexivity].
    destruct (output env _ out co ff); eexists; reflexivity. }
  split; [exact Hfail|]. split; [|exact Hgo].
  split.
  - intros Hr. destruct (fit sc X_none) as [p|e] eqn:Hfit.
    + destruct (Hgo p eq_refl) as [rest Hrest].
      rewrite Hr in Hrest. discriminate.
    + rewrite (Hfail e eq_refl) in Hr. now injection Hr as ->.
  - apply Hfail.
Qed.

Lemma empty_selection_is_left_to_the_scaler_witness :
  run (normalize Examples.demo (InMemory Examples.data_df) Examples.xyz Examples.infer
         "Metadata_treatment == 'blank'" "mad_robustize" "none" None None true "ZCA-cor")
  = (Err InvalidInput,
     [CallFit (Frame {| columns := ["x"; "y"; "z"; "zz"]; rows := [] |})]).
Proof.
  apply (proj1 (empty_selection_is_left_to_the_scaler Examples.demo
                  (InMemory Examples.data_df) Examples.xyz Examples.infer
                  "Metadata_treatment == 'blank'" "mad_robustize"
                  "none" None None true "ZCA-cor" Examples.data_df
                  (SpecModels.MadRobustize Examples.eps6) ["x"; "y"; "z"; "zz"]
                  [2; 3; 4; 5]%nat Examples.metadata_columns
                  (Frame (select_positions [0; 1]%nat Examples.data_df))
                  eq_refl eq_refl eq_refl eq_refl eq_refl eq_refl eq_refl)).
  apply fit_columns_no_rows.
Defined.

(** The per-column variants of the specification refuse to fit on no
    rows, so with them the call fails. *)
Example standardize_robustize_refuse_no_rows :
  fst (run (normalize Examples.demo (InMemory Examples.data_df) Examples.xyz
              Examples.infer "x > 100" "standardize" "none" None None true "ZCA-cor"))
  = Err InvalidInput
  /\ fst (run (normalize Examples.demo (InMemory Examples.data_df) Examples.xyz
                 Examples.infer "x > 100" "robustize" "none" None None true "ZCA-cor"))
     = Err InvalidInput.
Proof. split; reflexivity. Qed.

(** ** The floor under the MAD *)

Lemma insert_sorted_Forall (P : Q -> Prop) x l :
  P x -> Forall P l -> Forall P (insert_sorted x l).
Proof.
  intros Hx Hl. induction Hl as [|y l Hy Hl IH]; simpl.
  - now constructor.
  - destruct (Qle_bool x y); repeat constructor; assumption.
Qed.

Lemma sort_Forall (P : Q -> Prop) l : Forall P l -> Forall P (sort l).
Proof.
  intros Hl. induction Hl as [|x l Hx Hl IH]; simpl; [constructor|].
  now apply insert_sorted_Forall.
Qed.

Lemma insert_sorted_length x l : List.length (insert_sorted x l) = S (List.length l).
Proof.
  induction l as [|y l IH]; simpl; [reflexivity|].
  destruct (Qle_bool x y); simpl; [reflexivity | now rewrite IH].
Qed.

Lemma sort_length l : List.length (sort l) = List.length l.
Proof.
  induction l as [|x l IH]; simpl; [reflexivity|].
  now rewrite insert_sorted_length, IH.
Qed.

(** The median of values that all equal [c] is [c]. *)
Lemma median_constant l c :
  l <> [] -> Forall (fun x => x == c) l -> median l == c.
Proof.
  intros Hne Hall. unfold median.
  pose proof (sort_Forall _ _ Hall) as Hs.
  assert (Hn : (0 < List.length (sort l))%nat).
  { rewrite sort_length. destruct l; [contradiction | simpl; lia]. }
  assert (Hhalf : (List.length (sort l) / 2 < List.length (sort l))%nat)
    by (apply Nat.div_lt; lia).
  rewrite Forall_forall in Hs.
  destruct (Nat.even (List.length (sort l))).
  - rewrite (Hs (nth (List.length (sort l) / 2 - 1) (sort l) 0))
      by (apply nth_In; lia).
    rewrite (Hs (nth (List.length (sort l) / 2) (sort l) 0))
      by (apply nth_In; lia).
    field.
  - apply Hs. apply nth_In. lia.
Qed.

(** The scaled MAD of values that all equal [c] is zero. *)
Lemma mad_scaled_constant l c :
  l <> [] -> Forall (fun x => x == c) l -> SpecModels.mad_scaled l == 0.
Proof.
  intros Hne Hall. unfold SpecModels.mad_scaled.
  rewrite (median_constant (map (fun x => Qabs (x - median l)) l) 0).
  - ring.
  - destruct l; [contradiction | discriminate].
  - rewrite Forall_forall in *. intros d Hd.
    apply in_map_iff in Hd as [x [<- Hx]].
    rewrite (Hall x Hx), (median_constant l c Hne).
    + setoid_replace (c - c) with 0 by ring. reflexivity.
    + now apply Forall_forall.
Qed.

Lemma floor_of_zero_mad mad eps : mad == 0 -> 0 < eps -> Qmax mad eps == eps.
Proof.
  intros Hm Heps. apply Q.max_r. rewrite Hm. now apply Qlt_le_weak.
Qed.

Lemma floor_nonzero mad eps : 0 < eps -> Qeq_bool (Qmax mad eps) 0 = false.
Proof.
  intros Heps. destruct (Qeq_bool (Qmax mad eps) 0) eqn:E; [|reflexivity].
  apply Qeq_bool_eq in E. exfalso.
  pose proof (Q.le_max_r mad eps) as Hle. rewrite E in Hle.
  apply (Qlt_irrefl 0). now apply Qlt_le_trans with eps.
Qed.

Lemma mapR_Forall2 {A B : Type} (f : A -> result B) l l' :
  mapR f l = Ok l' -> Forall2 (fun a b => f a = Ok b) l l'.
Proof.
  revert l'. induction l as [|a l IH]; intros l'; simpl.
  - intros [= <-]. constructor.
  - destruct (f a) as [b|e] eqn:Hfa; simpl; [|discriminate].
    destruct (mapR f l) as [bs|e]; simpl; [|discriminate].
    intros [= <-]. constructor; [assumption | now apply IH].
Qed.

Lemma num_row_nth cells qs j q :
  mapR num_of cells = Ok qs -> nth j cells NaN = Num q -> nth j qs 0 = q.
Proof.
  intros H. apply mapR_Forall2 in H. revert j.
  induction H as [|cl x cells qs Hx _ IH]; intros j Hj.
  - destruct j; discriminate.
  - destruct j as [|j]; simpl in *.
    + subst cl. simpl in Hx. now injection Hx.
    + now apply IH.
Qed.

Lemma column_constant df m j c :
  numeric_rows df = Ok m ->
  (forall r, In r (rows df) -> exists q, nth j (snd r) NaN = Num q /\ q == c) ->
  Forall (fun x => x == c) (column j m).
Proof.
  unfold numeric_rows, column. intros H Hconst. apply mapR_Forall2 in H.
  induction H as [|r row rs m' Hrow _ IH]; simpl; constructor.
  - destruct (Hconst r (or_introl eq_refl)) as [q [Hq Hc]].
    now rewrite (num_row_nth _ _ _ _ Hrow Hq).
  - apply IH. intros r' Hin. apply Hconst. now right.
Qed.

Lemma numeric_rows_length df m :
  numeric_rows df = Ok m -> List.length m = List.length (rows df).
Proof.
  intros H. apply mapR_Forall2 in H. symmetry.
  induction H; simpl; [reflexivity | now f_equal].
Qed.

Lemma nth_error_combine {A B : Type} (l : list A) (l' : list B) j a b :
  nth_error l j = Some a -> nth_error l' j = Some b ->
  nth_error (combine l l') j = Some (a, b).
Proof.
  revert l l'. induction j as [|j IH]; intros [|x l] [|y l']; simpl; try discriminate.
  - now intros [= ->] [= ->].
  - apply IH.
Qed.

Lemma nth_error_tabulate {A : Type} (f : nat -> A) n j :
  (j < n)%nat -> nth_error (map f (seq 0 n)) j = Some (f j).
Proof.
  intros Hj. apply map_nth_error.
  rewrite (nth_error_nth' _ 0%nat) by (now rewrite length_seq).
  now rewrite seq_nth.
Qed.

(** What [fit] returns for the MadRobustize variant. *)
Lemma mad_fit_inv eps S ps :
  fit (SpecModels.MadRobustize eps) (Frame S) = Ok ps ->
  exists m, numeric_rows S = Ok m /\ m <> []
    /\ ps = map (fun j => (median (column j m), SpecModels.mad_scaled (column j m)))
                (seq 0 (List.length (columns S))).
Proof.
  simpl. destruct (numeric_rows S) as [m|e]; simpl; [|discriminate].
  destruct m as [|row m]; [discriminate|].
  intros [= <-]. exists (row :: m). repeat split. discriminate.
Qed.

(** With a positive floor no cell of the MadRobustize transform is
    non-finite, whatever was fitted. *)
Lemma mad_transform_finite eps (ps : params (SpecModels.MadRobustize eps)) X t :
  0 < eps ->
  transform (SpecModels.MadRobustize eps) ps X = Ok t ->
  Forall (Forall (fun cl => is_finite cl = true)) t.
Proof.
  intros Heps. simpl. destruct X as [df|s]; simpl; [|discriminate].
  destruct (Nat.eqb _ _); [|discriminate].
  destruct (numeric_rows df) as [m|e]; simpl; [|discriminate].
  intros [= <-]. rewrite Forall_forall. intros trow Hin.
  apply in_map_iff in Hin as [row [<- _]].
  rewrite Forall_forall. intros cl Hcl.
  apply in_map_iff in Hcl as [[p x] [<- Hpx]].
  apply in_combine_l in Hpx. apply in_map_iff in Hpx as [p0 [<- _]].
  unfold scale_cell. simpl. now rewrite floor_nonzero.
Qed.

(** C9: for the MadRobustize variant with a positive floor [eps], a
    column that is constant (equal to [c]) within the fitting subset has
    median [c] and scaled MAD zero, so its denominator is the floor; the
    transform of any numeric table of the same width then succeeds, none
    of its cells is non-finite, and in that column the cell of every row
    is the finite number [(x - c) / eps]. *)
Theorem mad_robustize_constant_column_finite eps S X ps m j c :
  0 < eps ->
  fit (SpecModels.MadRobustize eps) (Frame S) = Ok ps ->
  (j < List.length (columns S))%nat ->
  (forall r, In r (rows S) -> exists q, nth j (snd r) NaN = Num q /\ q == c) ->
  List.length (columns X) = List.length (columns S) ->
  numeric_rows X = Ok m ->
  exists t,
    transform (SpecModels.MadRobustize eps) ps (Frame X) = Ok t
    /\ List.length t = List.length (rows X)
    /\ Forall (Forall (fun cl => is_finite cl = true)) t
    /\ forall i row x,
         nth_error m i = Some row -> nth_error row j = Some x ->
         exists trow q,
           nth_error t i = Some trow
           /\ nth_error trow j = Some (Num q)
           /\ q == (x - c) / eps.
Proof.
  intros Heps Hfit Hj Hconst Hwidth HX.
  destruct (mad_fit_inv _ _ _ Hfit) as (mS & HS & HneS & Hps).
  assert (Hcol : Forall (fun x => x == c) (column j mS))
    by (now apply column_constant with S).
  assert (Hcolne : column j mS <> [])
    by (unfold column; destruct mS; [contradiction | discriminate]).
  pose proof (median_constant _ _ Hcolne Hcol) as Hmed.
  pose proof (floor_of_zero_mad _ _ (mad_scaled_constant _ _ Hcolne Hcol) Heps) as Hfloor.
  assert (Hlen : List.length (columns X) = List.length ps).
  { subst ps. now rewrite length_map, length_seq. }
  assert (Htr : transform (SpecModels.MadRobustize eps) ps (Frame X)
                = Ok (map (fun r => map (fun px => scale_cell (fst px) (snd px))
                                        (combine (map (fun p => (fst p, Qmax (snd p) eps)) ps) r))
                          m)).
  { simpl. rewrite length_map. apply Nat.eqb_eq in Hlen. rewrite Hlen, HX.
    reflexivity. }
  eexists. split; [exact Htr|]. split.
  { rewrite length_map. now apply numeric_rows_length. }
  split.
  { exact (mad_transform_finite _ _ _ _ Heps Htr). }
  intros i row x Hrow Hx.
  exists (map (fun px => scale_cell (fst px) (snd px))
              (combine (map (fun p => (fst p, Qmax (snd p) eps)) ps) row)).
  exists ((x - median (column j mS)) / Qmax (SpecModels.mad_scaled (column j mS)) eps).
  split; [exact (map_nth_error _ _ _ Hrow)|]. split.
  - erewrite map_nth_error.
    2:{ apply nth_error_combine; [|exact Hx].
        apply map_nth_error. subst ps. now apply nth_error_tabulate. }
    unfold scale_cell. cbn [fst snd].
    now rewrite (floor_nonzero _ _ Heps).
  - now rewrite Hmed, Hfloor.
Qed.

Lemma mad_robustize_constant_column_finite_witness :
  exists t,
    transform (SpecModels.MadRobustize Examples.eps6) Examples.flat_fitted
      (Frame Examples.flat_table) = Ok t
    /\ List.length t = List.length (rows Examples.flat_table)
    /\ Forall (Forall (fun cl => is_finite cl = true)) t
    /\ forall i row x,
         nth_error [[inject_Z 1; inject_Z 7]; [inject_Z 2; inject_Z 9];
                    [inject_Z 5; inject_Z (-3)]] i = Some row ->
         nth_error row 1 = Some x ->
         exists trow q,
           nth_error t i = Some trow
           /\ nth_error trow 1 = Some (Num q)
           /\ q == (x - inject_Z 7) / Examples.eps6.
Proof.
  apply (mad_robustize_constant_column_finite Examples.eps6 Examples.flat_subset
           Examples.flat_table Examples.flat_fitted).
  - reflexivity.
  - vm_compute. reflexivity.
  - simpl. lia.
  - intros r Hin. simpl in Hin.
    repeat (destruct Hin as [<-|Hin]; [eexists; split; reflexivity|]). destruct Hin.
  - reflexivity.
  - reflexivity.
Defined.

(** In the flat column the three rows become 0, 2000000 and -10000000. *)
Example flat_column_transformed :
  match transform (SpecModels.MadRobustize Examples.eps6) Examples.flat_fitted
          (Frame Examples.flat_table) with
  | Ok t => map (fun row => match nth 1 row NaN with
                            | Num q => Some (Qred q)
                            | _ => None
                            end) t
  | Err _ => []
  end
  = [Some 0; Some (inject_Z 2000000); Some (inject_Z (-10000000))].
Proof. vm_compute. reflexivity. Qed.

(** Through [normalize]: with the MadRobustize variant under
    ["mad_robustize"], the transformed cells of a table that the call
    returns or writes are all finite. *)
Corollary mad_robustize_output_finite
    env src features meta samples method out co ff c sm eps N :
  RobustMAD env = SpecModels.MadRobustize eps ->
  0 < eps ->
  lower method = "mad_robustize"%string ->
  produces (run (normalize env src features meta samples method out co ff c sm)) N ->
  exists mdf fdf t,
    N = merge mdf {| columns := columns fdf; rows := combine (index fdf) t |}
    /\ Forall (Forall (fun cl => is_finite cl = true)) t.
Proof.
  intros Hmad Heps Hm Hprod.
  apply produced_table in Hprod
    as (df & sc & fs & fdf & ms & mdf & X & p & t & Hsp & ->).
  destruct Hsp as [_ Hsc _ _ _ _ _ _ Htr _].
  rewrite Hm in Hsc. simpl in Hsc. injection Hsc as <-.
  exists mdf, fdf, t. split; [reflexivity|].
  revert p Htr. rewrite Hmad. intros p Htr.
  exact (mad_transform_finite _ _ _ _ Heps Htr).
Qed.

(** ** The expected values of [tests/test_normalize.py]

    The four tests of the suite, with the keyword names of the present
    signature and the metadata inferred: the embedding with the scaling
    models of the specification gives the expected tables to one decimal
    place. *)

Example test_normalize_standardize_allsamples :
  Examples.tenths
    (run (normalize Examples.demo (InMemory Examples.data_df) Examples.xyz Examples.infer
            "all" "standardize" "none" None None true "ZCA-cor"))
  = [ [-11; -7; 19; -7; 6; 6; 6; -11];
      [-6; -13; 9; -2; 2; 17; 6; -13];
      [-8; 3; -6; -2; 0; 25; -6; -6];
      [-3; 7; -8; -6; 2; 23; -7; -7] ]%Z.
Proof. vm_compute. reflexivity. Qed.

Example test_normalize_standardize_ctrlsamples :
  Examples.tenths
    (run (normalize Examples.demo (InMemory Examples.data_df) Examples.xyz Examples.infer
            Examples.control "standardize" "none" None None true "ZCA-cor"))
  = [ [-11; -7; 15; -7; 4; 4; 4; -11];
      [-7; -15; 11; -2; 2; 20; 7; -15];
      [-13; 40; -6; 17; 25; 148; -6; -6];
      [59; 225; -9; 17; 142; 506; -4; -4] ]%Z.
Proof. vm_compute. reflexivity. Qed.

Example test_normalize_robustize_allsamples :
  Examples.tenths
    (run (normalize Examples.demo (InMemory Examples.data_df) Examples.xyz Examples.infer
            "all" "robustize" "none" None None true "ZCA-cor"))
  = [ [-8; -5; 14; -5; 5; 5; 5; -8];
      [-4; -9; 7; -1; 1; 12; 4; -9];
      [-6; 10; -3; 3; 6; 41; -3; -3];
      [1; 11; -3; -1; 6; 28; -2; -2] ]%Z.
Proof. vm_compute. reflexivity. Qed.

Example test_normalize_robustize_ctrlsamples :
  Examples.tenths
    (run (normalize Examples.demo (InMemory Examples.data_df) Examples.xyz Examples.infer
            Examples.control "robustize" "none" None None true "ZCA-cor"))
  = [ [-6; -4; 11; -4; 4; 4; 4; -6];
      [-7; -13; 7; -3; 0; 13; 3; -13];
      [-13; 80; 0; 40; 53; 267; 0; 0];
      [96; 352; -8; 32; 224; 784; 0; 0] ]%Z.
Proof. vm_compute. reflexivity. Qed.

(** * Further properties of [normalize] *)

(** ** Labels that name no column *)

Lemma locate_missing names cols :
  missing_labels names cols <> [] ->
  locate names cols = Err (KeyErrorLabels (missing_labels names cols)).
Proof.
  induction names as [|n ns IH]; intros Hm; [contradiction|].
  simpl in *. destruct (positions n cols) as [|j p]; [reflexivity|].
  now rewrite (IH Hm).
Qed.

Lemma locate_none_missing names cols :
  missing_labels names cols = [] -> exists pos, locate names cols = Ok pos.
Proof.
  induction names as [|n ns IH]; intros Hm; simpl in *; [eauto|].
  destruct (positions n cols) as [|j p]; [discriminate|].
  destruct (IH Hm) as [ps ->]. simpl. eauto.
Qed.

(** When some labels of the list of features, or of the list of
    metadata, name no column of the loaded table, the call fails before
    anything is fitted, with one [KeyError] that names them all, in the
    order of the list; and the selection by a list fails in no other
    case. *)
Theorem missing_label_is_a_key_error
    env src meta features samples method out co ff c sm df names :
  load_profiles env src = Ok df ->
  In (lower method) avail_methods ->
  (missing_labels names (columns df) <> [] ->
     run (normalize env src (ColList names) meta samples method out co ff c sm)
     = (Err (KeyErrorLabels (missing_labels names (columns df))), [])
     /\ (forall fs fobj,
           resolve_spec env df features false = Ok fs ->
           loc df fs = Ok fobj ->
           run (normalize env src features (ColList names) samples method
                  out co ff c sm)
           = (Err (KeyErrorLabels (missing_labels names (columns df))), [])))
  /\ (missing_labels names (columns df) = [] ->
      exists f, loc df (ColList names) = Ok (Frame f)).
Proof.
  intros Hload Hav. split.
  - intros Hm. pose proof (locate_missing _ _ Hm) as Hloc. split.
    + unfold run, normalize, bind, lift, ret, raise.
      rewrite Hload, (proj2 (existsb_eqb_In _ _) Hav). simpl. now rewrite Hloc.
    + intros fs fobj Hfs Hfobj.
      unfold run, normalize, bind, lift, ret, raise.
      rewrite Hload, (proj2 (existsb_eqb_In _ _) Hav), Hfs, Hfobj. simpl.
      now rewrite Hloc.
  - intros Hm. destruct (locate_none_missing _ _ Hm) as [pos Hpos].
    exists (select_positions pos df). now apply loc_located.
Qed.

Lemma missing_label_is_a_key_error_witness :
  run (normalize Examples.demo (InMemory Examples.data_df)
         (ColList ["x"; "w"; "zz"; "q"]) Examples.infer "all" "standardize"
         "none" None None true "ZCA-cor")
  = (Err (KeyErrorLabels ["w"; "q"]), [])
  /\ run (normalize Examples.demo (InMemory Examples.data_df) Examples.xyz
            (ColList ["x"; "w"; "zz"; "q"]) "all" "standardize"
            "none" None None true "ZCA-cor")
     = (Err (KeyErrorLabels ["w"; "q"]), []).
Proof.
  destruct (proj1 (missing_label_is_a_key_error Examples.demo
                     (InMemory Examples.data_df) Examples.infer Examples.xyz "all"
                     "standardize" "none" None None true "ZCA-cor" Examples.data_df
                     ["x"; "w"; "zz"; "q"] eq_refl ltac:(simpl; auto))
                  ltac:(discriminate)) as [Hfeatures Hmeta].
  split.
  - exact Hfeatures.
  - exact (Hmeta Examples.xyz
             (Frame (select_positions [2; 3; 4; 5]%nat Examples.data_df))
             eq_refl eq_refl).
Defined.

(** ** Inferred columns *)

(** With ["infer"] the call runs as with the lists that
    [infer_cp_features] returns for the loaded table, the features from the
    call without [metadata] and the metadata from the call with it; and
    when the inference of the features fails, the call fails with that
    error before anything is fitted. *)
Theorem infer_runs_as_the_inferred_lists
    env src samples method out co ff c sm df :
  load_profiles env src = Ok df ->
  (forall fl ml,
     infer_cp_features env df false = Ok fl ->
     infer_cp_features env df true = Ok ml ->
     run (normalize env src (ColStr "infer") (ColStr "infer") samples method
            out co ff c sm)
     = run (normalize env src (ColList fl) (ColList ml) samples method out co ff c sm))
  /\ (forall e meta,
        In (lower method) avail_methods ->
        infer_cp_features env df false = Err e ->
        run (normalize env src (ColStr "infer") meta samples method out co ff c sm)
        = (Err e, [])).
Proof.
  intros Hload. split.
  - intros fl ml Hfl Hml.
    unfold run, normalize, bind, lift, ret, raise, resolve_spec.
    rewrite Hload. simpl colspec_is. cbv iota. now rewrite Hfl, Hml.
  - intros e meta Hav He.
    unfold run, normalize, bind, lift, ret, raise, resolve_spec.
    rewrite Hload, (proj2 (existsb_eqb_In _ _) Hav). simpl colspec_is. cbv iota.
    now rewrite He.
Qed.

Lemma infer_runs_as_the_inferred_lists_witness :
  run (normalize Examples.demo (InMemory Examples.cp_df) (ColStr "infer")
         (ColStr "infer") Examples.control "robustize" "none" None None true "ZCA-cor")
  = run (normalize Examples.demo (InMemory Examples.cp_df)
           (ColList ["Cells_area"; "Nuclei_area"])
           (ColList ["Metadata_plate"; "Metadata_treatment"])
           Examples.control "robustize" "none" None None true "ZCA-cor").
Proof.
  apply (proj1 (infer_runs_as_the_inferred_lists Examples.demo
                  (InMemory Examples.cp_df) Examples.control "robustize" "none"
                  None None true "ZCA-cor" Examples.cp_df eq_refl));
    reflexivity.
Defined.

(** On the test table, whose features are named [x], [y], [z] and [zz],
    the inference finds no feature and the call fails. *)
Example no_feature_is_inferred_on_the_test_table :
  run (normalize Examples.demo (InMemory Examples.data_df) (ColStr "infer")
         (ColStr "infer") "all" "standardize" "none" None None true "ZCA-cor")
  = (Err AssertionError, []).
Proof. reflexivity. Qed.

(** ** Options that do not apply *)

Lemma select_scaler_ignores_options env m c sm c' sm' :
  m <> "spherize" -> select_scaler env m c sm = select_scaler env m c' sm'.
Proof.
  intros Hne. unfold select_scaler. apply String.eqb_neq in Hne. now rewrite Hne.
Qed.

(** The two spherize options reach the [Spherize] constructor only: for
    any method whose lower-cased name is not ["spherize"], the call runs
    alike whatever they are. *)
Theorem spherize_options_only_reach_spherize
    env src features meta samples method out co ff c sm c' sm' :
  lower method <> "spherize" ->
  run (normalize env src features meta samples method out co ff c sm)
  = run (normalize env src features meta samples method out co ff c' sm').
Proof.
  intros Hne. unfold run, normalize.
  now rewrite (select_scaler_ignores_options env _ c sm c' sm' Hne).
Qed.

Lemma spherize_options_only_reach_spherize_witness :
  run (normalize Examples.demo (InMemory Examples.data_df) Examples.xyz Examples.infer
         "all" "Robustize" "none" None None true "ZCA-cor")
  = run (normalize Examples.demo (InMemory Examples.data_df) Examples.xyz Examples.infer
           "all" "Robustize" "none" None None false "PCA").
Proof.
  apply spherize_options_only_reach_spherize. discriminate.
Defined.

(** ** A single label given as a bare string *)

Lemma resolve_spec_label env df s metadata :
  s <> "infer" -> resolve_spec env df (ColStr s) metadata = Ok (ColStr s).
Proof.
  intros Hne. unfold resolve_spec. simpl. apply String.eqb_neq in Hne.
  now rewrite Hne.
Qed.

Lemma loc_single_label_is_a_series df s j f :
  positions s (columns df) = [j] -> loc df (ColStr s) <> Ok (Frame f).
Proof. intros Hp. simpl. rewrite Hp. discriminate. Qed.

(** A column named by a bare string instead of a one-element list is
    selected as a [Series]; the call then never returns a value and never
    writes: it fails, whatever the scaler does. *)
Theorem bare_label_never_yields_a_table
    env src features meta samples method out co ff c sm df s j :
  load_profiles env src = Ok df ->
  s <> "infer" ->
  positions s (columns df) = [j] ->
  features = ColStr s \/ meta = ColStr s ->
  let r := run (normalize env src features meta samples method out co ff c sm) in
  (exists e, fst r = Err e) /\ output_calls (snd r) = [].
Proof.
  intros Hload Hne Hpos Hbare r. subst r.
  destruct (normalized_table env src features meta samples method c sm [])
    as [[N|e] log] eqn:Hnt.
  - exfalso.
    apply normalized_table_inv in Hnt
      as (df' & sc & fs & fdf & ms & mdf & X & p & t & Hsp & _ & _).
    destruct Hsp as [Hload' _ Hfs Hfdf Hms Hmdf _ _ _ _].
    rewrite Hload in Hload'. injection Hload' as <-.
    destruct Hbare as [-> | ->].
    + rewrite (resolve_spec_label _ _ _ _ Hne) in Hfs. injection Hfs as <-.
      exact (loc_single_label_is_a_series _ _ _ _ Hpos Hfdf).
    + rewrite (resolve_spec_label _ _ _ _ Hne) in Hms. injection Hms as <-.
      exact (loc_single_label_is_a_series _ _ _ _ Hpos Hmdf).
  - rewrite (run_normalize_err _ _ _ _ _ _ out co ff _ _ _ _ Hnt). simpl. split.
    + now exists e.
    + exact (normalized_table_no_output _ _ _ _ _ _ _ _ _ _ _ Hnt).
Qed.

Lemma bare_label_never_yields_a_table_witness :
  let r := run (normalize Examples.demo (InMemory Examples.data_df) (ColStr "x")
                  Examples.infer "all" "robustize" "normalized.csv" None None
                  true "ZCA-cor") in
  (exists e, fst r = Err e) /\ output_calls (snd r) = [].
Proof.
  apply (bare_label_never_yields_a_table Examples.demo (InMemory Examples.data_df)
           (ColStr "x") Examples.infer "all" "robustize" "normalized.csv" None None
           true "ZCA-cor" Examples.data_df "x" 2%nat).
  - reflexivity.
  - discriminate.
  - reflexivity.
  - now left.
Defined.

(** With the metadata named by a bare string and the features by a list,
    the failure comes last: the scaler is fitted and applied, and only
    the merge fails, with an [AttributeError]. *)
Theorem bare_metadata_label_fails_at_the_merge
    env src features meta samples method out co ff c sm df sc fs fdf s j X p t :
  load_profiles env src = Ok df ->
  select_scaler env (lower method) c sm = Some sc ->
  resolve_spec env df features false = Ok fs ->
  loc df fs = Ok (Frame fdf) ->
  meta = ColStr s -> s <> "infer" ->
  positions s (columns df) = [j] ->
  fit_input env df fs (Frame fdf) samples = Ok X ->
  fit sc X = Ok p ->
  transform sc p (Frame fdf) = Ok t ->
  shape_ok t (List.length (columns fdf)) (List.length (index fdf)) = true ->
  run (normalize env src features meta samples method out co ff c sm)
  = (Err AttributeError, [CallFit X; CallTransform (Frame fdf)]).
Proof.
  intros Hload Hsc Hfs Hfdf -> Hne Hpos HX Hfit Htr Hshape.
  unfold run, normalize, bind, lift, ret, raise.
  rewrite Hload, (select_scaler_some _ _ _ _ _ Hsc), Hfs, Hfdf,
    (resolve_spec_label _ _ _ _ Hne).
  simpl loc. rewrite Hpos, Hsc, HX.
  unfold call_fit, call_transform, bind, lift, record.
  rewrite Hfit, Htr. unfold pd_DataFrame. now rewrite Hshape.
Qed.

Lemma bare_metadata_label_fails_at_the_merge_witness :
  exists X F,
    run (normalize Examples.demo (InMemory Examples.data_df) Examples.xyz
           (ColStr "Metadata_plate") "all" "robustize" "none" None None true "ZCA-cor")
    = (Err AttributeError, [CallFit X; CallTransform F]).
Proof.
  eexists. eexists.
  eapply (bare_metadata_label_fails_at_the_merge Examples.demo
            (InMemory Examples.data_df) Examples.xyz (ColStr "Metadata_plate") "all"
            "robustize" "none" None None true "ZCA-cor" Examples.data_df
            SpecModels.Robustize Examples.xyz
            (select_positions [2; 3; 4; 5]%nat Examples.data_df)
            "Metadata_plate" 0%nat).
  - reflexivity.
  - reflexivity.
  - reflexivity.
  - reflexivity.
  - reflexivity.
  - discriminate.
  - reflexivity.
  - reflexivity.
  - vm_compute. reflexivity.
  - vm_compute. reflexivity.
  - vm_compute. reflexivity.
Defined.

(** ** The order of the calls *)

(** Whatever the arguments and however the call ends, the scaler is
    fitted at most once, applied at most once and only after the fit, and
    [output] is called at most once, only after both and only with a
    destination. *)
Theorem calls_come_in_order env src features meta samples method out co ff c sm :
  let log := snd (run (normalize env src features meta samples method out co ff c sm)) in
  log = []
  \/ (exists X, log = [CallFit X])
  \/ (exists X F, log = [CallFit X; CallTransform F])
  \/ (exists X F N, log = [CallFit X; CallTransform F; CallOutput N out]
                    /\ out <> "none").
Proof.
  unfold run, normalize, bind, lift, ret, raise.
  destruct (load_profiles env src) as [df|e]; [|now left].
  destruct (existsb (String.eqb (lower method)) avail_methods); [|now left].
  destruct (resolve_spec env df features false) as [fs|e]; [|now left].
  destruct (loc df fs) as [fobj|e]; [|now left].
  destruct (resolve_spec env df meta true) as [ms|e]; [|now left].
  destruct (loc df ms) as [mobj|e]; [|now left].
  destruct (select_scaler env (lower method) c sm) as [sc|]; [|now left].
  destruct (fit_input env df fs fobj samples) as [X|e]; [|now left].
  unfold call_fit, call_transform, bind, lift, record. simpl app.
  destruct (fit sc X) as [p|e]; [|right; left; repeat eexists].
  destruct (transform sc p fobj) as [t|e]; [|right; right; left; repeat eexists].
  destruct fobj as [fdf|s]; [|right; right; left; repeat eexists].
  destruct (pd_DataFrame t (columns fdf) (index fdf)) as [nf|e];
    [|right; right; left; repeat eexists].
  destruct mobj as [mdf|s]; [|right; right; left; repeat eexists].
  destruct (String.eqb_spec out "none") as [E|E]; simpl.
  - right; right; left; repeat eexists.
  - right; right; right. exists X, (Frame fdf), (merge mdf nf).
    split; [|assumption]. unfold record.
    destruct (output env (merge mdf nf) out co ff); reflexivity.
Qed.

(** ** A query that fails *)

(** When [samples] is not ["all"] and the query fails on the loaded
    table (it does not parse, names a column that the table lacks, or
    compares what cannot be ordered), the call fails with the error of the
    query, and nothing is fitted. *)
Theorem failing_query_stops_before_the_fit
    env src features meta samples method out co ff c sm df sc fs fobj ms mobj e :
  load_profiles env src = Ok df ->
  select_scaler env (lower method) c sm = Some sc ->
  resolve_spec env df features false = Ok fs ->
  loc df fs = Ok fobj ->
  resolve_spec env df meta true = Ok ms ->
  loc df ms = Ok mobj ->
  samples <> "all" ->
  query env df samples = Err e ->
  run (normalize env src features meta samples method out co ff c sm) = (Err e, []).
Proof.
  intros Hload Hsc Hfs Hfobj Hms Hmobj Hne Hq.
  unfold run, normalize, bind, lift, ret, raise.
  rewrite Hload, (select_scaler_some _ _ _ _ _ Hsc), Hfs, Hfobj, Hms, Hmobj, Hsc.
  unfold fit_input. apply String.eqb_neq in Hne. now rewrite Hne, Hq.
Qed.

Lemma failing_query_stops_before_the_fit_witness :
  run (normalize Examples.demo (InMemory Examples.data_df) Examples.xyz Examples.infer
         "Metadata_batch == 'one'" "standardize" "none" None None true "ZCA-cor")
  = (Err (UndefinedVariableError "Metadata_batch"), []).
Proof.
  apply (failing_query_stops_before_the_fit Examples.demo (InMemory Examples.data_df)
           Examples.xyz Examples.infer "Metadata_batch == 'one'" "standardize" "none"
           None None true "ZCA-cor" Examples.data_df SpecModels.Standardize
           Examples.xyz (Frame (select_positions [2; 3; 4; 5]%nat Examples.data_df))
           Examples.metadata_columns
           (Frame (select_positions [0; 1]%nat Examples.data_df))).
  - reflexivity.
  - reflexivity.
  - reflexivity.
  - reflexivity.
  - reflexivity.
  - reflexivity.
  - discriminate.
  - reflexivity.
Defined.

(** ** The list of methods and the branches *)

(** The names that pass the assertion are exactly those for which a
    branch binds [scaler]: after the assertion the name is never unbound,
    and no branch is out of reach of the list. *)
Theorem avail_methods_are_the_branches env m c sm :
  In m avail_methods <-> select_scaler env m c sm <> None.
Proof.
  split.
  - intros Hin. apply existsb_eqb_In in Hin.
    destruct (select_scaler_avail env m c sm Hin) as [sc ->]. discriminate.
  - intros Hsome. destruct (select_scaler env m c sm) as [sc|] eqn:E;
      [|contradiction].
    apply existsb_eqb_In. exact (select_scaler_some _ _ _ _ _ E).
Qed.

(** ** The columns of the output *)

Lemma positions_from_nodup k name cols :
  NoDup cols -> In name cols ->
  exists i, positions_from k name cols = [(k + i)%nat] /\ nth i cols "" = name.
Proof.
  intros Hnd. revert k. induction Hnd as [|c cs Hc Hnd IH]; intros k Hin;
    [contradiction|].
  simpl. destruct (String.eqb_spec c name) as [E|E].
  - subst c. exists 0%nat. rewrite (positions_from_absent _ _ _ Hc).
    now rewrite Nat.add_0_r.
  - destruct Hin as [Hin|Hin]; [contradiction|].
    destruct (IH (S k) Hin) as [i [Hp Hn]]. exists (S i).
    rewrite Hp. split; [f_equal; lia | exact Hn].
Qed.

Lemma labels_located names cols pos :
  NoDup cols -> locate names cols = Ok pos -> labels pos cols = names.
Proof.
  intros Hnd. revert pos. induction names as [|n ns IH]; intros pos; simpl.
  - now intros [= <-].
  - destruct (in_dec string_dec n cols) as [Hin|Hout].
    + destruct (positions_from_nodup 0 n cols Hnd Hin) as [i [Hp Hn]].
      unfold positions. rewrite Hp.
      destruct (locate ns cols) as [ps|e]; simpl; [|discriminate].
      intros [= <-]. simpl. now rewrite Hn, (IH ps).
    + unfold positions. rewrite (positions_from_absent _ _ _ Hout). discriminate.
Qed.

Lemma merge_columns_disjoint lc rc :
  (forall c, In c lc -> ~ In c rc) -> merge_columns lc rc = lc ++ rc.
Proof.
  intros Hdis. unfold merge_columns. f_equal.
  - rewrite <- (map_id lc) at 2. apply map_ext_in. intros c Hc.
    unfold suffix_overlap. now rewrite (existsb_eqb_not_In _ _ (Hdis c Hc)).
  - rewrite <- (map_id rc) at 2. apply map_ext_in. intros c Hc.
    unfold suffix_overlap. rewrite existsb_eqb_not_In; [reflexivity|].
    intros Hl. exact (Hdis c Hl Hc).
Qed.

(** On a table whose column labels are distinct, the columns of a table
    that the call returns or writes are the metadata labels followed by
    the feature labels, each list in the order in which it was given.
    A label that is on both lists comes out twice, with the suffix [_x]
    among the metadata and [_y] among the features. *)
Theorem columns_are_metadata_then_features
    env src features meta samples method out co ff c sm df fl ml N :
  load_profiles env src = Ok df ->
  NoDup (columns df) ->
  resolve_spec env df features false = Ok (ColList fl) ->
  resolve_spec env df meta true = Ok (ColList ml) ->
  produces (run (normalize env src features meta samples method out co ff c sm)) N ->
  columns N = merge_columns ml fl
  /\ ((forall l, In l ml -> ~ In l fl) -> columns N = ml ++ fl)
  /\ (forall l, In l ml -> In l fl ->
        In (l ++ "_x")%string (columns N) /\ In (l ++ "_y")%string (columns N)).
Proof.
  intros Hload Hnd Hfl Hml Hprod.
  apply produced_table in Hprod
    as (df' & sc & fs & fdf & ms & mdf & X & p & t & Hsp & ->).
  destruct Hsp as [Hload' _ Hfs Hfdf Hms Hmdf _ _ _ _].
  rewrite Hload in Hload'. injection Hload' as <-.
  rewrite Hfl in Hfs. injection Hfs as <-.
  rewrite Hml in Hms. injection Hms as <-.
  apply loc_list in Hfdf as (fpos & Hfpos & Hf). injection Hf as ->.
  apply loc_list in Hmdf as (mpos & Hmpos & Hm). injection Hm as ->.
  assert (Hcols : columns (merge (select_positions mpos df)
                    {| columns := columns (select_positions fpos df);
                       rows := combine (index (select_positions fpos df)) t |})
                  = merge_columns ml fl).
  { simpl. fold (labels mpos (columns df)). fold (labels fpos (columns df)).
    now rewrite (labels_located _ _ _ Hnd Hmpos), (labels_located _ _ _ Hnd Hfpos). }
  split; [exact Hcols|]. split.
  - intros Hdis. rewrite Hcols. now apply merge_columns_disjoint.
  - intros l Hm Hf. rewrite Hcols. unfold merge_columns. split; apply in_or_app.
    + left. apply in_map_iff. exists l. split; [|assumption].
      unfold suffix_overlap. now rewrite (proj2 (existsb_eqb_In _ _) Hf).
    + right. apply in_map_iff. exists l. split; [|assumption].
      unfold suffix_overlap. now rewrite (proj2 (existsb_eqb_In _ _) Hm).
Qed.

Lemma columns_are_metadata_then_features_witness :
  let N := Examples.table_of
             (run (normalize Examples.demo (InMemory Examples.data_df)
                     (ColList ["zz"; "x"]) (ColList ["Metadata_treatment"; "x"])
                     "all" "robustize" "none" None None true "ZCA-cor")) in
  columns N = merge_columns ["Metadata_treatment"; "x"] ["zz"; "x"]
  /\ ((forall l, In l ["Metadata_treatment"; "x"] -> ~ In l ["zz"; "x"]) ->
      columns N = ["Metadata_treatment"; "x"] ++ ["zz"; "x"])
  /\ (forall l, In l ["Metadata_treatment"; "x"] -> In l ["zz"; "x"] ->
        In (l ++ "_x")%string (columns N) /\ In (l ++ "_y")%string (columns N)).
Proof.
  intros N.
  apply (columns_are_metadata_then_features Examples.demo (InMemory Examples.data_df)
           (ColList ["zz"; "x"]) (ColList ["Metadata_treatment"; "x"])
           "all" "robustize" "none" None None true "ZCA-cor" Examples.data_df).
  - reflexivity.
  - simpl. repeat constructor; simpl; intuition discriminate.
  - reflexivity.
  - reflexivity.
  - left. vm_compute. reflexivity.
Defined.

(** The columns of that call: the shared label [x] comes out twice. *)
Example shared_label_gets_suffixes :
  columns (Examples.table_of
             (run (normalize Examples.demo (InMemory Examples.data_df)
                     (ColList ["zz"; "x"]) (ColList ["Metadata_treatment"; "x"])
                     "all" "robustize" "none" None None true "ZCA-cor")))
  = ["Metadata_treatment"; "x_x"; "zz"; "x_y"].
Proof. vm_compute. reflexivity. Qed.

(** ** The transformed cells of the output *)

Lemma skipn_length_app {A : Type} (l l' : list A) :
  skipn (List.length l) (l ++ l') = l'.
Proof. induction l as [|x l IH]; simpl; [reflexivity | exact IH]. Qed.

(** On distinct index labels, what follows the metadata cells in the
    rows of a table that the call returns or writes is, row for row, the
    array that [transform] returned for the feature columns of the whole
    table, from the scaler that the method selects, fitted on the input
    that the selection spec gives. *)
Theorem transformed_cells_follow_the_metadata
    env src features meta samples method out co ff c sm df N :
  load_profiles env src = Ok df ->
  NoDup (index df) ->
  produces (run (normalize env src features meta samples method out co ff c sm)) N ->
  exists sc X (p : params sc) fs fdf ms mdf t,
    select_scaler env (lower method) c sm = Some sc
    /\ resolve_spec env df features false = Ok fs
    /\ loc df fs = Ok (Frame fdf)
    /\ resolve_spec env df meta true = Ok ms
    /\ loc df ms = Ok (Frame mdf)
    /\ fit_input env df fs (Frame fdf) samples = Ok X
    /\ fit sc X = Ok p
    /\ transform sc p (Frame fdf) = Ok t
    /\ List.length t = List.length (rows df)
    /\ map (fun r => skipn (List.length (columns mdf)) (snd r)) (rows N) = t.
Proof.
  intros Hload Hnd Hprod.
  apply produced_table in Hprod
    as (df' & sc & fs & fdf & ms & mdf & X & p & t & Hsp & ->).
  destruct Hsp as [Hload' Hsc Hfs Hfdf Hms Hmdf HX Hfit Htr Hshape].
  rewrite Hload in Hload'. injection Hload' as <-.
  exists sc, X, p, fs, fdf, ms, mdf, t. repeat (split; [assumption|]).
  destruct (loc_frame _ _ _ Hfdf) as [fpos ->].
  destruct (loc_frame _ _ _ Hmdf) as [mpos ->].
  apply shape_ok_length in Hshape. rewrite index_select_positions in Hshape.
  assert (Hlen : List.length t = List.length (rows df))
    by (rewrite Hshape; unfold index; apply length_map).
  split; [exact Hlen|].
  rewrite (merge_rows_distinct _ _ _ _ Hnd Hshape), map_map.
  simpl. rewrite length_map.
  clear - Hlen. revert t Hlen.
  induction (rows df) as [|r rs IH]; intros [|x t] Hlen; simpl in *;
    try reflexivity; try discriminate.
  rewrite <- (take_cols_length mpos (snd r)) at 1. rewrite skipn_length_app.
  f_equal. apply IH. now injection Hlen.
Qed.

Lemma transformed_cells_follow_the_metadata_witness :
  exists sc X (p : params sc) fs fdf ms mdf t,
    select_scaler Examples.demo (lower "robustize") true "ZCA-cor" = Some sc
    /\ resolve_spec Examples.demo Examples.data_df Examples.xyz false = Ok fs
    /\ loc Examples.data_df fs = Ok (Frame fdf)
    /\ resolve_spec Examples.demo Examples.data_df Examples.infer true = Ok ms
    /\ loc Examples.data_df ms = Ok (Frame mdf)
    /\ fit_input Examples.demo Examples.data_df fs (Frame fdf) Examples.control = Ok X
    /\ fit sc X = Ok p
    /\ transform sc p (Frame fdf) = Ok t
    /\ List.length t = List.length (rows Examples.data_df)
    /\ map (fun r => skipn (List.length (columns mdf)) (snd r))
           (rows (Examples.table_of
                    (run (normalize Examples.demo (InMemory Examples.data_df)
                            Examples.xyz Examples.infer Examples.control "robustize"
                            "none" None None true "ZCA-cor")))) = t.
Proof.
  apply (transformed_cells_follow_the_metadata Examples.demo (InMemory Examples.data_df)
           Examples.xyz Examples.infer Examples.control "robustize"
           "none" None None true "ZCA-cor").
  - reflexivity.
  - simpl. repeat constructor; simpl; intuition discriminate.
  - left. vm_compute. reflexivity.
Defined.

(** ** The number of rows when labels repeat *)

Lemma length_matching i rs :
  List.length (matching i rs) = count_occ Z.eq_dec (map fst rs) i.
Proof.
  induction rs as [|r rs IH]; simpl; [reflexivity|].
  destruct (Z.eqb_spec (fst r) i) as [E|E]; destruct (Z.eq_dec (fst r) i) as [E'|E'];
    try contradiction; simpl; now rewrite IH.
Qed.

Lemma length_join_rows l r :
  List.length (join_rows l r)
  = list_sum (map (fun i => count_occ Z.eq_dec (map fst r) i) (map fst l)).
Proof.
  unfold join_rows. induction l as [|x l IH]; simpl; [reflexivity|].
  now rewrite length_app, length_map, length_matching, IH.
Qed.

(** Whatever the index, a table that the call returns or writes has,
    for each row of the input, as many rows as there are input rows with
    that row's index label: one each when the labels are distinct, and
    k times k rows for a label carried by k rows. *)
Theorem row_count_is_the_sum_of_label_multiplicities
    env src features meta samples method out co ff c sm df N :
  load_profiles env src = Ok df ->
  produces (run (normalize env src features meta samples method out co ff c sm)) N ->
  List.length (rows N)
  = list_sum (map (fun i => count_occ Z.eq_dec (index df) i) (index df)).
Proof.
  intros Hload Hprod.
  apply produced_table in Hprod
    as (df' & sc & fs & fdf & ms & mdf & X & p & t & Hsp & ->).
  destruct Hsp as [Hload' _ _ Hfdf _ Hmdf _ _ _ Hshape].
  rewrite Hload in Hload'. injection Hload' as <-.
  destruct (loc_frame _ _ _ Hfdf) as [fpos ->].
  destruct (loc_frame _ _ _ Hmdf) as [mpos ->].
  apply shape_ok_length in Hshape. rewrite index_select_positions in Hshape.
  simpl. rewrite length_join_rows, index_select_positions.
  rewrite map_fst_combine by (symmetry; assumption).
  unfold feature_values, index. now rewrite !map_map.
Qed.

Lemma row_count_is_the_sum_of_label_multiplicities_witness :
  List.length (rows (Examples.table_of
                       (run (normalize Examples.demo (InMemory Examples.dup_wells)
                               (ColList ["y"]) (ColList ["Metadata_well"]) "all"
                               "mad_robustize" "none" None None true "ZCA-cor"))))
  = list_sum (map (fun i => count_occ Z.eq_dec (index Examples.dup_wells) i)
                  (index Examples.dup_wells)).
Proof.
  apply (row_count_is_the_sum_of_label_multiplicities Examples.demo
           (InMemory Examples.dup_wells) (ColList ["y"]) (ColList ["Metadata_well"])
           "all" "mad_robustize" "none" None None true "ZCA-cor").
  - reflexivity.
  - left. vm_compute. reflexivity.
Defined.

(** ** The call with every default *)

(** With every keyword at its default ([features] and [meta_features]
    inferred, all samples, ["standardize"], no destination), a call uses
    [load_profiles], [infer_cp_features] and [StandardScaler] and nothing
    else: two sets of collaborators that agree on these three give the
    same run. *)
Theorem default_call_uses_three_collaborators env env' src :
  load_profiles env' = load_profiles env ->
  infer_cp_features env' = infer_cp_features env ->
  StandardScaler env' = StandardScaler env ->
  run (normalize env' src (ColStr "infer") (ColStr "infer") "all" "standardize" "none"
         None None true "ZCA-cor")
  = run (normalize env src (ColStr "infer") (ColStr "infer") "all" "standardize" "none"
           None None true "ZCA-cor").
Proof.
  intros Hload Hinfer Hscaler.
  unfold run, normalize, resolve_spec, select_scaler, fit_input. simpl.
  now rewrite Hload, Hinfer, Hscaler.
Qed.

Lemma default_call_uses_three_collaborators_witness :
  run (normalize (with_parser Examples.demo (fun _ => Err (OtherError "no parser")))
         (InMemory Examples.cp_df) (ColStr "infer") (ColStr "infer") "all"
         "standardize" "none" None None true "ZCA-cor")
  = run (normalize Examples.demo (InMemory Examples.cp_df) (ColStr "infer")
           (ColStr "infer") "all" "standardize" "none" None None true "ZCA-cor").
Proof.
  apply (default_call_uses_three_collaborators Examples.demo
           (with_parser Examples.demo (fun _ => Err (OtherError "no parser")))
           (InMemory Examples.cp_df));
    reflexivity.
Defined.

(** ** What a call without query and without destination uses *)

(** With [samples] at ["all"] and no destination, a call uses neither
    the parser behind [DataFrame.query] nor [output], and the compression
    options and the float format play no part: two sets of collaborators
    that agree on [load_profiles], [infer_cp_features] and the four
    scalers give the same run, whatever the output options are. *)
Theorem no_query_no_destination_uses_no_parser_no_output
    env env' src features meta method c sm co ff co' ff' :
  load_profiles env' = load_profiles env ->
  infer_cp_features env' = infer_cp_features env ->
  StandardScaler env' = StandardScaler env ->
  RobustScaler env' = RobustScaler env ->
  RobustMAD env' = RobustMAD env ->
  Spherize env' = Spherize env ->
  run (normalize env' src features meta "all" method "none" co ff c sm)
  = run (normalize env src features meta "all" method "none" co' ff' c sm).
Proof.
  intros Hload Hinfer Hstd Hrob Hmad Hsph.
  unfold run, normalize, resolve_spec, select_scaler, fit_input.
  rewrite Hload, Hinfer, Hstd, Hrob, Hmad, Hsph. reflexivity.
Qed.

Lemma no_query_no_destination_uses_no_parser_no_output_witness :
  run (normalize (with_parser Examples.demo (fun _ => Err (OtherError "no parser")))
         (InMemory Examples.data_df) Examples.xyz Examples.infer "all" "mad_robustize"
         "none" (Some "gzip") (Some "%.3g") true "ZCA-cor")
  = run (normalize Examples.demo (InMemory Examples.data_df) Examples.xyz
           Examples.infer "all" "mad_robustize" "none" None None true "ZCA-cor").
Proof.
  apply (no_query_no_destination_uses_no_parser_no_output Examples.demo
           (with_parser Examples.demo (fun _ => Err (OtherError "no parser")))
           (InMemory Examples.data_df));
    reflexivity.
Defined.
